(** * Seattle sidewalk accessibility analysis: cleaning, aggregation, ranking

    A shallow embedding of [seattle_sidewalk_analysis.py].  The script is a
    straight-line pandas program over one data frame; every statement of the
    cleaning / aggregation / ranking part (lines 29-67) and of the closing
    summary (lines 196-197) is transcribed below as a function on lists of
    rows.  The chart, map and console rendering calls consume these values
    and are not part of the model.

    Numbers.  A [float64] cell is modelled as an exact rational, or as [NaN]
    for a missing value; pandas' conventions for missing values are kept
    ([==] and [>=] are false on NaN, [count], [mean] and [median] skip NaN,
    [groupby] drops NaN keys, [sort_values] puts NaN last).  Rounding of
    binary64 arithmetic itself is not modelled. *)

From Stdlib Require Import List Bool Arith ZArith QArith Qround Qreduction.
From Stdlib Require Import String Lia Lqa Sorted Permutation.
Import ListNotations.

Local Open Scope Q_scope.

(** ** Cells *)

Definition float := option Q.

Definition NaN : float := None.

Definition isna (x : float) : bool :=
  match x with None => true | Some _ => false end.

Definition notna (x : float) : bool := negb (isna x).

(** [x == y] on a float column: false as soon as one side is NaN. *)
Definition float_eqb (x y : float) : bool :=
  match x, y with
  | Some a, Some b => Qeq_bool a b
  | _, _ => false
  end.

(** [x >= y] on floats, as a proposition: never holds on NaN. *)
Definition float_ge (x y : float) : Prop :=
  match x, y with
  | Some a, Some b => b <= a
  | _, _ => False
  end.

(** [series.fillna(value)] on one cell. *)
Definition fillna (value x : float) : float :=
  match x with None => value | Some _ => x end.

(** [int64 * float64]. *)
Definition mul_int_float (n : nat) (x : float) : float :=
  match x with
  | Some q => Some (inject_Z (Z.of_nat n) * q)
  | None => NaN
  end.

(** Round half to even, the rounding of [numpy.rint]. *)
Definition rint (q : Q) : Z :=
  let f := Qfloor q in
  match Qcompare (q - inject_Z f) (1 # 2) with
  | Lt => f
  | Gt => (f + 1)%Z
  | Eq => if Z.even f then f else (f + 1)%Z
  end.

(** [series.round(decimals)]: scale, round to the nearest integer, unscale. *)
Definition round (decimals : nat) (x : float) : float :=
  match x with
  | Some q =>
      let scale := inject_Z (10 ^ Z.of_nat decimals) in
      Some (Qred (inject_Z (rint (q * scale)) / scale))
  | None => NaN
  end.

(** ** Stable sorting, shared by [median], [groupby] and [sort_values] *)

Section InsertionSort.
Context {A : Type} (leb : A -> A -> bool).

Fixpoint insert (x : A) (l : list A) : list A :=
  match l with
  | [] => [x]
  | y :: l' => if leb x y then x :: l else y :: insert x l'
  end.

Definition insertion_sort (l : list A) : list A := fold_right insert [] l.
End InsertionSort.

(** ** Column reductions *)

Fixpoint dropna (col : list float) : list Q :=
  match col with
  | [] => []
  | Some q :: col' => q :: dropna col'
  | None :: col' => dropna col'
  end.

Definition Qsum (v : list Q) : Q := fold_right Qplus 0 v.

(** [series.count()]: the number of non-missing cells. *)
Definition count (col : list float) : nat := List.length (dropna col).

(** [series.mean()]: mean of the non-missing cells, NaN when there is none. *)
Definition mean (col : list float) : float :=
  match dropna col with
  | [] => NaN
  | v => Some (Qred (Qsum v / inject_Z (Z.of_nat (List.length v))))
  end.

(** The non-missing cells of a column in ascending order. *)
Definition sorted_values (col : list float) : list Q :=
  insertion_sort Qle_bool (dropna col).

(** [series.median()]: the middle of the sorted non-missing cells, or the
    mean of the two middle ones; NaN when there is none. *)
Definition median (col : list float) : float :=
  let v := sorted_values col in
  let n := List.length v in
  match n with
  | O => NaN
  | _ =>
      if Nat.odd n then Some (nth (n / 2) v 0)
      else Some (Qred ((nth (n / 2 - 1) v 0 + nth (n / 2) v 0) / 2))
  end.

(** ** Rows of the data frame (after the column renaming of lines 18-25) *)

Module Row.
Record t := mk {
  longitude : float;
  latitude : float;
  label_type : option string;
  neighborhood : option string;
  severity : float;
  is_temporary : option bool
}.

Definition with_severity (r : t) (s : float) : t :=
  mk (longitude r) (latitude r) (label_type r) (neighborhood r) s
     (is_temporary r).
End Row.

(** Rows of [groupby(...).agg(...).reset_index()] (lines 45-52). *)
Module Agg.
Record t := mk {
  neighborhood : string;
  total_barriers : nat;
  avg_severity : float
}.
End Agg.

(** Rows of [stats] once the index column exists (lines 54-65). *)
Module Stats.
Record t := mk {
  neighborhood : string;
  total_barriers : nat;
  avg_severity : float;
  barrier_density_index : float
}.
End Stats.

Definition frame := list Row.t.

(** ** 1. Load and clean (lines 29-38) *)

(** Line 29: [df["severity"].isna().sum()]. *)
Definition missing_sev (df : frame) : nat :=
  List.length (filter (fun r => isna (Row.severity r)) df).

(** Line 30: [df["severity"] = df["severity"].fillna(df["severity"].median())]. *)
Definition impute (df : frame) : frame :=
  let m := median (map Row.severity df) in
  map (fun r => Row.with_severity r (fillna m (Row.severity r))) df.

(** Lines 34-36. *)
Definition bad_coords (r : Row.t) : bool :=
  (float_eqb (Row.longitude r) (Some 0) && float_eqb (Row.latitude r) (Some 0))
  || isna (Row.longitude r)
  || isna (Row.latitude r).

(** Line 37: [df = df[~bad_coords].copy()]. *)
Definition drop_bad_coords (df : frame) : frame :=
  filter (fun r => negb (bad_coords r)) df.

Definition clean (raw : frame) : frame := drop_bad_coords (impute raw).

(** ** 2. Analysis and ranking (lines 45-67) *)

Definition has_key (k : string) (r : Row.t) : bool :=
  match Row.neighborhood r with
  | Some k' => String.eqb k' k
  | None => false
  end.

(** The cell of the grouping column, when the row has one. *)
Definition key_cells (r : Row.t) : list string :=
  match Row.neighborhood r with
  | Some k => [k]
  | None => []
  end.

(** The group keys of [df.groupby("neighborhood")]: the distinct non-missing
    values of the column, in ascending order. *)
Definition group_keys (df : frame) : list string :=
  insertion_sort String.leb (nodup string_dec (flat_map key_cells df)).

Definition get_group (df : frame) (k : string) : frame := filter (has_key k) df.

(** Lines 45-52. *)
Definition groupby_agg (df : frame) : list Agg.t :=
  map (fun k =>
         let sev := map Row.severity (get_group df k) in
         Agg.mk k (count sev) (mean sev))
      (group_keys df).

(** Line 54: the index column is computed from the columns as they are then. *)
Definition add_index (a : Agg.t) : Stats.t :=
  Stats.mk (Agg.neighborhood a) (Agg.total_barriers a) (Agg.avg_severity a)
    (mul_int_float (Agg.total_barriers a) (Agg.avg_severity a)).

(** Line 57. *)
Definition round_avg_severity (s : Stats.t) : Stats.t :=
  Stats.mk (Stats.neighborhood s) (Stats.total_barriers s)
    (round 2 (Stats.avg_severity s)) (Stats.barrier_density_index s).

(** Line 58. *)
Definition round_index (s : Stats.t) : Stats.t :=
  Stats.mk (Stats.neighborhood s) (Stats.total_barriers s)
    (Stats.avg_severity s) (round 1 (Stats.barrier_density_index s)).

(** The order of [sort_values(..., ascending=False)]: larger index first,
    NaN last. *)
Definition index_geb (s t : Stats.t) : bool :=
  match Stats.barrier_density_index s, Stats.barrier_density_index t with
  | Some a, Some b => Qle_bool b a
  | Some _, None => true
  | None, Some _ => false
  | None, None => true
  end.

(** Lines 61-65.  pandas leaves the relative order of equal indices to the
    sorting algorithm; here ties keep the order of the groups. *)
Definition sort_values (st : list Stats.t) : list Stats.t :=
  insertion_sort index_geb st.

(** Lines 54-65 on the aggregated table. *)
Definition rank (ag : list Agg.t) : list Stats.t :=
  sort_values (map round_index (map round_avg_severity (map add_index ag))).

(** Line 67: [stats.head(10)]. *)
Definition head (n : nat) (st : list Stats.t) : list Stats.t := firstn n st.

(** The values the script holds after line 67. *)
Record analysis := {
  loaded_rows : nat;            (* line 15 *)
  imputed : nat;                (* line 31 *)
  df : frame;                   (* line 37 *)
  clean_rows : nat;             (* line 38 *)
  stats : list Stats.t;         (* line 65 *)
  top10 : list Stats.t          (* line 67 *)
}.

Definition analyse (raw : frame) : analysis :=
  let cleaned := clean raw in
  let st := rank (groupby_agg cleaned) in
  {| loaded_rows := List.length raw;
     imputed := missing_sev raw;
     df := cleaned;
     clean_rows := List.length cleaned;
     stats := st;
     top10 := head 10 st |}.

(** ** 4. Summary (lines 196-197) *)

(** Outcome of a statement that may raise; [Raise] carries the name of the
    Python exception class. *)
Inductive result (A : Type) : Type :=
| Ok (a : A)
| Raise (cls : string).
Arguments Ok {A} a.
Arguments Raise {A} cls.

Definition bind {A B} (m : result A) (k : A -> result B) : result B :=
  match m with
  | Ok a => k a
  | Raise cls => Raise cls
  end.

Notation "x <- m ;; k" := (bind m (fun x => k))
  (at level 61, m at next level, right associativity).

(** [frame.iloc[i]] for [i >= 0]: out of bounds raises [IndexError]. *)
Definition iloc {A} (l : list A) (i : nat) : result A :=
  match nth_error l i with
  | Some x => Ok x
  | None => Raise "IndexError"
  end.

(** Lines 196-197. *)
Definition insight (top : list Stats.t) : result (Stats.t * Stats.t) :=
  n1 <- iloc top 0 ;;
  n2 <- iloc top 1 ;;
  Ok (n1, n2).

(** The whole run: the analysis, then the summary. *)
Definition script (raw : frame) : result analysis :=
  let a := analyse raw in
  _ <- insight (top10 a) ;;
  Ok a.

(** The outcome is an exception of class [cls]. *)
Definition fails_with {A} (cls : string) (o : result A) : Prop :=
  o = Raise cls.

(** Sum of the [total_barriers] column. *)
Definition sum_total_barriers (st : list Stats.t) : nat :=
  list_sum (map Stats.total_barriers st).

(** ** Notions used in the statements *)

(** What line 30 does to one row, [m] being the median of the column. *)
Definition fill_severity (m : float) (r : Row.t) : Row.t :=
  match Row.severity r with
  | None => Row.with_severity r m
  | Some _ => r
  end.

(** The condition of lines 34-36, as a proposition. *)
Definition dropped (r : Row.t) : Prop :=
  ((exists x, Row.longitude r = Some x /\ x == 0) /\
   (exists y, Row.latitude r = Some y /\ y == 0)) \/
  Row.longitude r = NaN \/ Row.latitude r = NaN.

(** The severity is present and lies between 1 and 5. *)
Definition severity_in_scale (r : Row.t) : Prop :=
  exists q, Row.severity r = Some q /\ 1 <= q <= 5.

(** The row has a neighborhood. *)
Definition keyed (r : Row.t) : bool :=
  match Row.neighborhood r with Some _ => true | None => false end.

(** The row is seen by [("severity", "count")] in some group. *)
Definition counted (r : Row.t) : bool := keyed r && notna (Row.severity r).

(** Lines 54-58 on one aggregated row. *)
Definition finalize (a : Agg.t) : Stats.t :=
  round_index (round_avg_severity (add_index a)).

(** The order of [sorted_values], as a relation. *)
Definition Qleb_rel (x y : Q) : Prop := Qle_bool x y = true.

(** How many values are at most [b], and at least [b]. *)
Definition count_le (b : Q) (v : list Q) : nat :=
  List.length (filter (fun x => Qle_bool x b) v).

Definition count_ge (b : Q) (v : list Q) : nat :=
  List.length (filter (fun x => Qle_bool b x) v).

(** ** Sample data *)

Definition rec (lon lat : float) (nb : option string) (sev : float) : Row.t :=
  Row.mk lon lat (Some "CurbRamp"%string) nb sev (Some false).

Definition seattle_lon : float := Some (-1223 # 10).
Definition seattle_lat : float := Some (476 # 10).

Definition at_seattle (nb : option string) (sev : float) : Row.t :=
  rec seattle_lon seattle_lat nb sev.

Definition sev (n : Z) : float := Some (inject_Z n).

(** Five located rows with severities 1, 3, missing, 5, missing. *)
Definition severities_1_3_null_5_null : frame :=
  [at_seattle None (sev 1); at_seattle None (sev 3); at_seattle None NaN;
   at_seattle None (sev 5); at_seattle None NaN].

(** Two rows at the origin with severity 1, one located row with severity 5
    and one located row without severity. *)
Definition median_before_filtering : frame :=
  [rec (Some 0) (Some 0) None (sev 1); rec (Some 0) (Some 0) None (sev 1);
   at_seattle None (sev 5); at_seattle None NaN].

(** Records (A, 4), (A, 2), (B, 5). *)
Definition aggregation_example : frame :=
  [at_seattle (Some "A"%string) (sev 4); at_seattle (Some "A"%string) (sev 2);
   at_seattle (Some "B"%string) (sev 5)].

(** Fourteen records of one neighborhood: eleven of severity 1, three of
    severity 2.  The mean is 17/14 = 1.214..., displayed as 1.21. *)
Definition eleven_ones_three_twos : frame :=
  repeat (at_seattle (Some "A"%string) (sev 1)) 11 ++
  repeat (at_seattle (Some "A"%string) (sev 2)) 3.

(** Two neighborhoods, no severity recorded at all. *)
Definition all_severities_missing : frame :=
  [at_seattle (Some "A"%string) NaN; at_seattle (Some "B"%string) NaN].

(** Three neighborhoods, one severity to impute. *)
Definition three_neighborhoods : frame :=
  [at_seattle (Some "B"%string) (sev 2); at_seattle (Some "A"%string) (sev 4);
   at_seattle (Some "C"%string) (sev 5); at_seattle (Some "A"%string) NaN].

(** Every row is without location: one sits at (0, 0), one has no
    longitude. *)
Definition unlocated : frame :=
  [rec (Some 0) (Some 0) (Some "A"%string) (sev 3);
   rec NaN seattle_lat (Some "B"%string) (sev 4)].

(** One record, one neighborhood. *)
Definition single_neighborhood : frame := [at_seattle (Some "A"%string) (sev 3)].

(** ** 3. What the charts and the map are fed (lines 85, 115-142, 170-171) *)

(** Line 85: [top10.sort_values("total_barriers", ascending=True)]. *)
Definition total_leb (s t : Stats.t) : bool :=
  Nat.leb (Stats.total_barriers s) (Stats.total_barriers t).

Definition bar_chart_rows (top : list Stats.t) : list Stats.t :=
  insertion_sort total_leb top.

(** Lines 115-116: the centre of the map. *)
Definition center_lat (df : frame) : float := mean (map Row.latitude df).

Definition center_lon (df : frame) : float := mean (map Row.longitude df).

(** Line 121: [df[["latitude", "longitude", "severity"]].values.tolist()]. *)
Definition heat_data (df : frame) : list (list float) :=
  map (fun r => [Row.latitude r; Row.longitude r; Row.severity r]) df.

(** [x >= y] as a cell of a boolean mask: false on NaN. *)
Definition float_geb (x y : float) : bool :=
  match x, y with
  | Some a, Some b => Qle_bool b a
  | _, _ => false
  end.

(** The mask [df["severity"] >= 5] on one row. *)
Definition is_severe (r : Row.t) : bool := float_geb (Row.severity r) (Some 5).

(** Line 132: [df[df["severity"] >= 5].head(900)]. *)
Definition severe_df (df : frame) : frame := firstn 900 (filter is_severe df).

(** A text cell inside an f-string; a missing cell prints as [nan]. *)
Definition cell_str (c : option string) : string :=
  match c with
  | Some s => s
  | None => "nan"
  end.

(** One [folium.CircleMarker] (lines 135-142). *)
Record marker := {
  location : list float;
  popup : string
}.

(** Lines 134-142: one marker per row of [severe_df]. *)
Definition circle_markers (df : frame) : list marker :=
  map (fun row =>
         {| location := [Row.latitude row; Row.longitude row];
            popup := "<b>" ++ cell_str (Row.label_type row) ++ "</b><br>"
                     ++ cell_str (Row.neighborhood row) |})
      (severe_df df).

(** The non-missing cells of a column of any type. *)
Fixpoint notnull {A} (col : list (option A)) : list A :=
  match col with
  | [] => []
  | Some x :: col' => x :: notnull col'
  | None :: col' => notnull col'
  end.

(** [series.value_counts()]: the distinct non-missing values with their
    number of occurrences, most frequent first.  pandas leaves the order of
    equally frequent values to the sorting algorithm; here they keep the
    order of their first appearance. *)
Section ValueCounts.
Context {A : Type} (eqb : A -> A -> bool).

Fixpoint unique (v : list A) : list A :=
  match v with
  | [] => []
  | x :: v' => x :: filter (fun y => negb (eqb x y)) (unique v')
  end.

Definition occurrences (x : A) (v : list A) : nat :=
  List.length (filter (eqb x) v).

Definition count_geb (a b : A * nat) : bool := Nat.leb (snd b) (snd a).

Definition value_counts (col : list (option A)) : list (A * nat) :=
  let v := notnull col in
  insertion_sort count_geb (map (fun k => (k, occurrences k v)) (unique v)).


End ValueCounts.

(** Line 170: [df['label_type'].value_counts().head(5)]. *)
Definition type_counts (df : frame) : list (string * nat) :=
  firstn 5 (value_counts String.eqb (map Row.label_type df)).

(** ** 4. Summary (lines 191-193) *)




(** The row carries the given label, respectively the given flag. *)
Definition has_label (k : string) (r : Row.t) : bool :=
  match Row.label_type r with
  | Some k' => String.eqb k k'
  | None => false
  end.


Definition labelled_rows (df : frame) : nat :=
  List.length (notnull (map Row.label_type df)).


(** The row without its barrier type and its temporary flag. *)
Definition erase_labels (r : Row.t) : Row.t :=
  Row.mk (Row.longitude r) (Row.latitude r) None (Row.neighborhood r)
    (Row.severity r) None.

(** The factor by which [round] scales for a number of decimals. *)
Definition scale (decimals : nat) : Q := inject_Z (10 ^ Z.of_nat decimals).

(** ** More sample data *)

Definition labelled (label : option string) (tmp : option bool) (s : float)
  : Row.t :=
  Row.mk seattle_lon seattle_lat label (Some "A"%string) s tmp.

(** Three curb ramps, two obstacles, one row without label; two of the
    labelled rows are temporary. *)
Definition survey_sample : frame :=
  [labelled (Some "CurbRamp"%string) (Some false) (sev 5);
   labelled (Some "Obstacle"%string) (Some true) (sev 2);
   labelled (Some "CurbRamp"%string) (Some false) (sev 5);
   labelled None None (sev 3);
   labelled (Some "Obstacle"%string) (Some true) NaN;
   labelled (Some "CurbRamp"%string) (Some false) (sev 4)].

(** Eleven neighborhoods, one record each. *)
Definition eleven_neighborhoods : frame :=
  map (fun ks => at_seattle (Some (fst ks)) (sev (snd ks)))
      [("A", 3); ("B", 5); ("C", 1); ("D", 4); ("E", 2); ("F", 5);
       ("G", 3); ("H", 4); ("I", 2); ("J", 5); ("K", 4)]%string%Z.

(** * Properties *)

(** ** Insertion sort *)

Section InsertionSortFacts.
Context {A : Type} (leb : A -> A -> bool).

Lemma insert_perm (x : A) (l : list A) :
  Permutation (insert leb x l) (x :: l).
Proof.
  induction l as [|y l IH]; simpl.
  - apply Permutation_refl.
  - destruct (leb x y).
    + apply Permutation_refl.
    + eapply perm_trans; [apply perm_skip, IH | apply perm_swap].
Qed.

Lemma insertion_sort_perm (l : list A) :
  Permutation (insertion_sort leb l) l.
Proof.
  induction l as [|x l IH]; simpl.
  - constructor.
  - eapply perm_trans; [apply insert_perm | now apply perm_skip].
Qed.

Lemma insertion_sort_In (l : list A) (x : A) :
  In x (insertion_sort leb l) <-> In x l.
Proof.
  split; apply Permutation_in;
    [| apply Permutation_sym]; apply insertion_sort_perm.
Qed.

Lemma insertion_sort_length (l : list A) :
  List.length (insertion_sort leb l) = List.length l.
Proof. apply Permutation_length, insertion_sort_perm. Qed.

Hypothesis leb_total : forall x y, leb x y = false -> leb y x = true.

Lemma insert_sorted (x : A) (l : list A) :
  Sorted (fun x y => leb x y = true) l ->
  Sorted (fun x y => leb x y = true) (insert leb x l).
Proof.
  induction l as [|y l IH]; simpl; intros Hs.
  - repeat constructor.
  - destruct (leb x y) eqn:E.
    + constructor; [assumption | constructor; exact E].
    + inversion Hs as [|? ? Hs' Hhd]; subst.
      constructor; [now apply IH |].
      destruct l as [|z l]; simpl.
      * constructor. now apply leb_total.
      * destruct (leb x z); constructor.
        -- now apply leb_total.
        -- now inversion Hhd.
Qed.

Lemma insertion_sort_sorted (l : list A) :
  Sorted (fun x y => leb x y = true) (insertion_sort leb l).
Proof.
  induction l as [|x l IH]; simpl.
  - constructor.
  - now apply insert_sorted.
Qed.

Hypothesis leb_trans :
  forall x y z, leb x y = true -> leb y z = true -> leb x z = true.

Lemma insertion_sort_strongly_sorted (l : list A) :
  StronglySorted (fun x y => leb x y = true) (insertion_sort leb l).
Proof.
  apply Sorted_StronglySorted; [| apply insertion_sort_sorted].
  intros x y z; apply leb_trans.
Qed.
End InsertionSortFacts.

(** Consecutive entries of a sorted list are related. *)
Lemma Sorted_consecutive {A} (R : A -> A -> Prop) (l : list A) :
  Sorted R l ->
  forall i x y, nth_error l i = Some x -> nth_error l (S i) = Some y -> R x y.
Proof.
  induction 1 as [|a l Hs IH Hhd]; intros i x y Hx Hy.
  - destruct i; discriminate.
  - destruct i as [|i]; simpl in Hx, Hy.
    + injection Hx as <-. destruct l as [|b l]; [discriminate |].
      injection Hy as <-. now inversion Hhd.
    + eapply IH; eassumption.
Qed.

Lemma filter_length_perm {A} (p : A -> bool) (l l' : list A) :
  Permutation l l' ->
  List.length (filter p l) = List.length (filter p l').
Proof.
  induction 1; simpl; try congruence.
  - destruct (p x); simpl; congruence.
  - destruct (p x), (p y); reflexivity.
Qed.

Lemma filter_length_le {A} (p : A -> bool) (l : list A) :
  (List.length (filter p l) <= List.length l)%nat.
Proof.
  induction l as [|x l IH]; simpl; [lia |].
  destruct (p x); simpl; lia.
Qed.

Lemma filter_all {A} (p : A -> bool) (l : list A) :
  Forall (fun x => p x = true) l -> filter p l = l.
Proof.
  induction 1 as [|x l Hx _ IH]; simpl; [reflexivity |].
  now rewrite Hx, IH.
Qed.

(** ** The median *)

Lemma Qle_bool_total (x y : Q) : Qle_bool x y = false -> Qle_bool y x = true.
Proof.
  intros H. apply Qle_bool_iff. apply Qlt_le_weak, Qnot_le_lt.
  intros Hle. apply Qle_bool_iff in Hle. congruence.
Qed.

Lemma Qle_bool_trans (x y z : Q) :
  Qle_bool x y = true -> Qle_bool y z = true -> Qle_bool x z = true.
Proof. rewrite !Qle_bool_iff. apply Qle_trans. Qed.

Lemma sorted_values_sorted (col : list float) :
  StronglySorted Qleb_rel (sorted_values col).
Proof.
  apply insertion_sort_strongly_sorted.
  - exact Qle_bool_total.
  - exact Qle_bool_trans.
Qed.

Lemma sorted_values_length (col : list float) :
  List.length (sorted_values col) = count col.
Proof. apply insertion_sort_length. Qed.

Lemma sorted_nth_le (v : list Q) :
  StronglySorted Qleb_rel v ->
  forall i j, (i <= j < List.length v)%nat -> nth i v 0 <= nth j v 0.
Proof.
  induction 1 as [|a v Hs IH Hall]; intros i j Hij; simpl in *; [lia |].
  destruct i as [|i], j as [|j]; try lia.
  - apply Qle_refl.
  - apply Qle_bool_iff.
    eapply (proj1 (Forall_forall _ _) Hall). apply nth_In. lia.
  - apply IH. lia.
Qed.

Lemma count_le_sorted (v : list Q) :
  StronglySorted Qleb_rel v ->
  forall i b, (i < List.length v)%nat -> nth i v 0 <= b ->
  (S i <= List.length (filter (fun x => Qle_bool x b) v))%nat.
Proof.
  induction 1 as [|a v Hs IH Hall]; intros i b Hi Hb; simpl in *; [lia |].
  assert (Ha : Qle_bool a b = true).
  { apply Qle_bool_iff. destruct i as [|i]; [exact Hb |].
    eapply Qle_trans; [| exact Hb]. apply Qle_bool_iff.
    eapply (proj1 (Forall_forall _ _) Hall). apply nth_In. lia. }
  rewrite Ha. simpl. destruct i as [|i]; [lia |].
  specialize (IH i b). apply le_n_S, IH; [lia | exact Hb].
Qed.

Lemma count_ge_sorted (v : list Q) :
  StronglySorted Qleb_rel v ->
  forall i b, (i < List.length v)%nat -> b <= nth i v 0 ->
  (List.length v - i <= List.length (filter (fun x => Qle_bool b x) v))%nat.
Proof.
  induction 1 as [|a v Hs IH Hall]; intros i b Hi Hb; simpl in *; [lia |].
  destruct i as [|i].
  - assert (Ha : Qle_bool b a = true) by now apply Qle_bool_iff.
    rewrite Ha. simpl. rewrite filter_all; [lia |].
    eapply Forall_impl; [| exact Hall].
    intros x Hx. eapply Qle_bool_trans; eassumption.
  - specialize (IH i b).
    destruct (Qle_bool b a); simpl; [apply Nat.le_le_succ_r |];
      apply IH; solve [lia | exact Hb].
Qed.

Lemma half_cases (n : nat) :
  (0 < n)%nat ->
  (Nat.odd n = true /\ n = 2 * (n / 2) + 1)%nat \/
  (Nat.odd n = false /\ n = 2 * (n / 2) /\ 0 < n / 2)%nat.
Proof.
  intros Hn. pose proof (Nat.div_mod_eq n 2) as Hdm.
  pose proof (Nat.mod_upper_bound n 2 ltac:(lia)) as Hub.
  destruct (Nat.odd n) eqn:E.
  - left. split; [reflexivity |].
    apply Nat.odd_spec in E. destruct E as [k ->]. 
    replace ((2 * k + 1) / 2)%nat with k; [lia |].
    apply (Nat.div_unique _ 2 k 1); lia.
  - right. split; [reflexivity |].
    assert (He : Nat.even n = true) by (rewrite <- Nat.negb_odd, E; reflexivity).
    apply Nat.even_spec in He. destruct He as [k ->].
    replace (2 * k / 2)%nat with k; [lia |].
    apply (Nat.div_unique _ 2 k 0); lia.
Qed.

Lemma Qmid_bounds (a b : Q) :
  a <= b -> a <= Qred ((a + b) / 2) /\ Qred ((a + b) / 2) <= b.
Proof.
  intros Hab. rewrite Qred_correct.
  split.
  - apply Qle_shift_div_l; [reflexivity |]. 
    setoid_replace (a * 2) with (a + a) by ring.
    apply Qplus_le_r. exact Hab.
  - apply Qle_shift_div_r; [reflexivity |].
    setoid_replace (b * 2) with (b + b) by ring.
    apply Qplus_le_l. exact Hab.
Qed.

(** The median sits between two entries of the sorted column that split it
    in halves. *)
Lemma median_between (col : list float) (m : Q) :
  median col = Some m ->
  let v := sorted_values col in
  exists i j,
    (i < List.length v)%nat /\ (j < List.length v)%nat /\
    nth i v 0 <= m /\ m <= nth j v 0 /\
    (List.length v <= 2 * S i)%nat /\
    (List.length v <= 2 * (List.length v - j))%nat.
Proof.
  intros Hm v. unfold median in Hm. fold (sorted_values col) in Hm.
  fold v in Hm. pose proof (sorted_values_sorted col) as Hs. fold v in Hs.
  destruct (List.length v) as [|n'] eqn:En; [discriminate |].
  destruct (half_cases (S n') ltac:(lia)) as [[Ho Hn] | [Ho [Hn Hpos]]];
    rewrite Ho in Hm; injection Hm as <-.
  - exists (S n' / 2)%nat, (S n' / 2)%nat.
    repeat split; try apply Qle_refl; lia.
  - exists (S n' / 2 - 1)%nat, (S n' / 2)%nat.
    assert (Hle : nth (S n' / 2 - 1) v 0 <= nth (S n' / 2) v 0)
      by (apply sorted_nth_le; [exact Hs | lia]).
    destruct (Qmid_bounds _ _ Hle) as [H1 H2].
    repeat split; try assumption; lia.
Qed.

Lemma median_notna (col : list float) :
  median col = NaN <-> dropna col = [].
Proof.
  unfold median, sorted_values. rewrite insertion_sort_length.
  destruct (dropna col) as [|q v]; simpl List.length; [tauto |].
  split; [| discriminate].
  destruct (Nat.odd (S (List.length v))); discriminate.
Qed.

Lemma dropna_In (col : list float) (q : Q) :
  In q (dropna col) <-> In (Some q) col.
Proof.
  induction col as [|[x|] col IH]; simpl; [tauto | |].
  - rewrite IH. split; intros [H|H]; auto; left; congruence.
  - rewrite IH. split; [auto | intros [H|H]; [discriminate | exact H]].
Qed.

(** At least half of the values lie on either side of the median. *)
Lemma median_halves (col : list float) (m : Q) :
  median col = Some m ->
  (count col <= 2 * count_le m (dropna col))%nat /\
  (count col <= 2 * count_ge m (dropna col))%nat.
Proof.
  intros Hm. destruct (median_between col m Hm) as (i & j & Hi & Hj & Him & Hmj & H1 & H2).
  pose proof (sorted_values_sorted col) as Hs.
  pose proof (count_le_sorted _ Hs i m Hi Him) as Hle.
  pose proof (count_ge_sorted _ Hs j m Hj Hmj) as Hge.
  unfold count_le, count_ge.
  rewrite <- (filter_length_perm _ _ _ (insertion_sort_perm Qle_bool (dropna col))).
  rewrite <- (filter_length_perm _ _ _ (insertion_sort_perm Qle_bool (dropna col))).
  fold (sorted_values col). rewrite <- sorted_values_length. lia.
Qed.

Lemma median_in_range (col : list float) (lo hi m : Q) :
  (forall q, In (Some q) col -> lo <= q <= hi) ->
  median col = Some m -> lo <= m <= hi.
Proof.
  intros Hr Hm.
  destruct (median_between col m Hm) as (i & j & Hi & Hj & Him & Hmj & _).
  assert (Hin : forall k, (k < List.length (sorted_values col))%nat ->
                          lo <= nth k (sorted_values col) 0 <= hi).
  { intros k Hk. apply Hr, dropna_In.
    apply (insertion_sort_In Qle_bool). now apply nth_In. }
  split.
  - eapply Qle_trans; [apply (Hin i Hi) | exact Him].
  - eapply Qle_trans; [exact Hmj | apply (Hin j Hj)].
Qed.

(** ** Cleaning *)

Lemma impute_fill (raw : frame) :
  impute raw = map (fill_severity (median (map Row.severity raw))) raw.
Proof.
  unfold impute. apply map_ext. intros [lon lat lt nb [q|] tmp]; reflexivity.
Qed.

Lemma bad_coords_fill (m : float) (r : Row.t) :
  bad_coords (fill_severity m r) = bad_coords r.
Proof. destruct r as [lon lat lt nb [q|] tmp]; reflexivity. Qed.

Lemma filter_map_comm {A B} (f : A -> B) (p : B -> bool) (l : list A) :
  filter p (map f l) = map f (filter (fun x => p (f x)) l).
Proof.
  induction l as [|x l IH]; simpl; [reflexivity |].
  destruct (p (f x)); simpl; now rewrite IH.
Qed.

Lemma clean_fill (raw : frame) :
  clean raw =
  map (fill_severity (median (map Row.severity raw))) (drop_bad_coords raw).
Proof.
  unfold clean, drop_bad_coords. rewrite impute_fill, filter_map_comm.
  f_equal. apply filter_ext. intros r. now rewrite bad_coords_fill.
Qed.

Lemma clean_In (raw : frame) (r : Row.t) :
  In r (clean raw) <->
  exists r0, In r0 raw /\ bad_coords r0 = false /\
             r = fill_severity (median (map Row.severity raw)) r0.
Proof.
  rewrite clean_fill, in_map_iff. unfold drop_bad_coords.
  split; intros (r0 & H1 & H2).
  - apply filter_In in H2 as [H2 H3]. exists r0.
    repeat split; auto. now destruct (bad_coords r0).
  - destruct H2 as [H2 H3]. exists r0. split; [auto |].
    apply filter_In. split; [exact H1 | now rewrite H2].
Qed.

Lemma bad_coords_false (r : Row.t) :
  bad_coords r = false ->
  float_eqb (Row.longitude r) (Some 0) && float_eqb (Row.latitude r) (Some 0)
    = false /\
  Row.longitude r <> NaN /\ Row.latitude r <> NaN.
Proof.
  unfold bad_coords. intros H.
  apply orb_false_iff in H as [H H3]. apply orb_false_iff in H as [H1 H2].
  repeat split; [exact H1 | |]; intros E; rewrite E in *; discriminate.
Qed.

Lemma fill_severity_severity (m : float) (r : Row.t) :
  Row.severity (fill_severity m r) = fillna m (Row.severity r).
Proof. destruct r as [lon lat lt nb [q|] tmp]; reflexivity. Qed.

Lemma median_some_of_notna (raw : frame) :
  (exists r0, In r0 raw /\ Row.severity r0 <> NaN) ->
  median (map Row.severity raw) <> NaN.
Proof.
  intros (r0 & Hin & Hs) Hm. apply median_notna in Hm.
  destruct (Row.severity r0) as [q|] eqn:E; [| now apply Hs].
  assert (Hq : In q (dropna (map Row.severity raw))).
  { apply dropna_In. rewrite <- E. now apply in_map. }
  rewrite Hm in Hq. exact Hq.
Qed.

(** ** Grouping *)

Lemma group_keys_In (df : frame) (k : string) :
  In k (group_keys df) <->
  exists r, In r df /\ Row.neighborhood r = Some k.
Proof.
  unfold group_keys. rewrite insertion_sort_In, nodup_In, in_flat_map.
  unfold key_cells.
  split; intros (r & Hr & Hk); exists r; split; auto.
  - destruct (Row.neighborhood r) as [k'|]; simpl in Hk; [| tauto].
    destruct Hk as [-> | []]. reflexivity.
  - rewrite Hk. now left.
Qed.

Lemma group_keys_NoDup (df : frame) : NoDup (group_keys df).
Proof.
  unfold group_keys.
  eapply Permutation_NoDup;
    [apply Permutation_sym, insertion_sort_perm | apply NoDup_nodup].
Qed.

Lemma has_key_true (k : string) (r : Row.t) :
  has_key k r = true <-> Row.neighborhood r = Some k.
Proof.
  unfold has_key. destruct (Row.neighborhood r) as [k'|].
  - rewrite String.eqb_eq. split; congruence.
  - split; discriminate.
Qed.

Lemma get_group_In (df : frame) (k : string) (r : Row.t) :
  In r (get_group df k) <-> In r df /\ Row.neighborhood r = Some k.
Proof. unfold get_group. now rewrite filter_In, has_key_true. Qed.

Lemma dropna_length (col : list float) :
  List.length (dropna col) = List.length (filter notna col).
Proof.
  induction col as [|[q|] col IH]; simpl; congruence.
Qed.

Lemma count_group (df : frame) (k : string) :
  count (map Row.severity (get_group df k)) =
  List.length (filter (fun r => has_key k r && notna (Row.severity r)) df).
Proof.
  unfold count, get_group. rewrite dropna_length.
  induction df as [|r df IH]; simpl; [reflexivity |].
  destruct (has_key k r); simpl; [| exact IH].
  destruct (notna (Row.severity r)); simpl; now rewrite IH.
Qed.

(** A row falls in at most one group. *)
Lemma one_group (ks : list string) (r : Row.t) (p : bool) :
  NoDup ks ->
  list_sum (map (fun k => if has_key k r && p then 1 else 0)%nat ks) =
  (if existsb (fun k => has_key k r) ks && p then 1 else 0)%nat.
Proof.
  induction 1 as [|k ks Hk Hnd IH]; simpl; [reflexivity |].
  rewrite IH. destruct (has_key k r) eqn:E; simpl; [| reflexivity].
  destruct p; simpl; [| now rewrite !andb_false_r].
  rewrite andb_true_r.
  destruct (existsb (fun k0 => has_key k0 r) ks) eqn:Ex; [| reflexivity].
  exfalso. apply existsb_exists in Ex as (k' & Hin & Hk').
  apply has_key_true in E. apply has_key_true in Hk'.
  apply Hk. congruence.
Qed.

Lemma list_sum_map_add {A} (f g : A -> nat) (l : list A) :
  list_sum (map (fun x => f x + g x)%nat l) =
  (list_sum (map f l) + list_sum (map g l))%nat.
Proof. induction l as [|x l IH]; simpl; lia. Qed.

Lemma sum_over_groups (ks : list string) (p : Row.t -> bool) (df : frame) :
  NoDup ks ->
  list_sum (map (fun k => List.length (filter (fun r => has_key k r && p r) df)) ks) =
  List.length (filter (fun r => existsb (fun k => has_key k r) ks && p r) df).
Proof.
  intros Hnd. induction df as [|r df IH]; simpl.
  - induction ks; simpl; auto. apply IHks. now inversion Hnd.
  - rewrite (map_ext _ (fun k => (if has_key k r && p r then 1 else 0) +
        List.length (filter (fun r0 => has_key k r0 && p r0) df))%nat).
    + rewrite list_sum_map_add, IH, (one_group ks r (p r) Hnd).
      destruct (existsb _ ks && p r); reflexivity.
    + intros k. destruct (has_key k r && p r); reflexivity.
Qed.

Lemma keyed_in_keys (df : frame) (r : Row.t) :
  In r df -> existsb (fun k => has_key k r) (group_keys df) = keyed r.
Proof.
  intros Hin. unfold keyed.
  destruct (Row.neighborhood r) as [k|] eqn:E.
  - apply existsb_exists. exists k. split.
    + apply group_keys_In. eauto.
    + now apply has_key_true.
  - apply not_true_is_false. intros H.
    apply existsb_exists in H as (k & _ & Hk).
    apply has_key_true in Hk. congruence.
Qed.

Lemma filter_ext_in' {A} (p q : A -> bool) (l : list A) :
  (forall x, In x l -> p x = q x) -> filter p l = filter q l.
Proof.
  induction l as [|x l IH]; simpl; intros H; [reflexivity |].
  rewrite (H x (or_introl eq_refl)), IH; auto.
Qed.

Lemma groupby_agg_total (df : frame) :
  list_sum (map Agg.total_barriers (groupby_agg df)) =
  List.length (filter counted df).
Proof.
  unfold groupby_agg. rewrite map_map. simpl.
  rewrite (map_ext _ (fun k =>
     List.length (filter (fun r => has_key k r && notna (Row.severity r)) df)))
    by (intros k; apply count_group).
  rewrite sum_over_groups by apply group_keys_NoDup.
  f_equal. apply filter_ext_in'. intros r Hin.
  unfold counted. now rewrite keyed_in_keys.
Qed.

(** ** Ranking *)

Lemma rank_perm (ag : list Agg.t) : Permutation (rank ag) (map finalize ag).
Proof.
  unfold rank, sort_values. rewrite !map_map. apply insertion_sort_perm.
Qed.

Lemma rank_In (ag : list Agg.t) (s : Stats.t) :
  In s (rank ag) <-> exists a, In a ag /\ s = finalize a.
Proof.
  split.
  - intros H. apply (Permutation_in _ (rank_perm ag)) in H.
    apply in_map_iff in H as (a & <- & Ha). eauto.
  - intros (a & Ha & ->).
    apply (Permutation_in _ (Permutation_sym (rank_perm ag))).
    now apply in_map.
Qed.

Lemma list_sum_perm (l l' : list nat) :
  Permutation l l' -> list_sum l = list_sum l'.
Proof. induction 1; simpl; lia. Qed.

Lemma rank_total (ag : list Agg.t) :
  sum_total_barriers (rank ag) = list_sum (map Agg.total_barriers ag).
Proof.
  unfold sum_total_barriers.
  rewrite (list_sum_perm _ _ (Permutation_map _ (rank_perm ag))).
  now rewrite map_map.
Qed.

Lemma index_geb_total (s t : Stats.t) :
  index_geb s t = false -> index_geb t s = true.
Proof.
  unfold index_geb.
  destruct (Stats.barrier_density_index s), (Stats.barrier_density_index t);
    auto; try discriminate.
  apply Qle_bool_total.
Qed.

Lemma rank_sorted (ag : list Agg.t) :
  Sorted (fun s t => index_geb s t = true) (rank ag).
Proof. apply insertion_sort_sorted, index_geb_total. Qed.

(** * The claims *)

(** ** Cleaning: imputation and coordinate filtering *)

(** C5.  Imputation replaces every missing severity, and only those, by the
    median of the non-missing severities of the whole input: the cleaned
    frame is the input without its badly located rows, filled with the
    median of the input as it was before any row was dropped.  That value is
    a statistical median (at least half of the values are at most it, at
    least half are at least it), and is NaN exactly when no severity is
    present.  Severities [1, 3, null, 5, null] become [1, 3, 3, 5, 3]; rows
    that are dropped afterwards still weigh in the median. *)
Theorem C5_imputation_by_global_median :
  forall raw : frame,
    let col := map Row.severity raw in
    impute raw = map (fill_severity (median col)) raw /\
    clean raw = map (fill_severity (median col)) (drop_bad_coords raw) /\
    match median col with
    | Some m =>
        (count col <= 2 * count_le m (dropna col))%nat /\
        (count col <= 2 * count_ge m (dropna col))%nat
    | None => dropna col = []
    end /\
    map Row.severity (impute severities_1_3_null_5_null) =
      [sev 1; sev 3; sev 3; sev 5; sev 3] /\
    map Row.severity (clean median_before_filtering) = [sev 5; sev 1].
Proof.
  intros raw col. split; [apply impute_fill |].
  split; [apply clean_fill |].
  split; [| split; reflexivity].
  destruct (median col) as [m|] eqn:E.
  - now apply median_halves.
  - now apply median_notna.
Qed.

Lemma float_eqb_zero (x : float) :
  float_eqb x (Some 0) = true <-> exists q, x = Some q /\ q == 0.
Proof.
  destruct x as [q|]; simpl.
  - rewrite Qeq_bool_iff. split; [eauto |].
    intros (q' & [= <-] & H). exact H.
  - split; [discriminate | intros (q & [=] & _)].
Qed.

Lemma isna_true (x : float) : isna x = true <-> x = NaN.
Proof. unfold NaN. destruct x; simpl; split; congruence. Qed.

Lemma bad_coords_dropped (r : Row.t) : bad_coords r = true <-> dropped r.
Proof.
  unfold bad_coords, dropped.
  rewrite !orb_true_iff, andb_true_iff, !float_eqb_zero, !isna_true. tauto.
Qed.

Lemma drop_bad_coords_app (d1 d2 : frame) :
  drop_bad_coords (d1 ++ d2) = drop_bad_coords d1 ++ drop_bad_coords d2.
Proof. apply filter_app. Qed.

(** C6.  Coordinate filtering removes a record exactly when its longitude
    and latitude are both zero, or its longitude is missing, or its latitude
    is missing; every other record stays, in place.  The severity of a
    record does not enter the condition.  A record at (0, 0) is dropped, a
    record at (0, 47.6) is kept. *)
Theorem C6_dropped_iff_bad_coordinates :
  forall (d1 d2 : frame) (r : Row.t),
    (bad_coords r = true <-> dropped r) /\
    drop_bad_coords (d1 ++ r :: d2) =
      drop_bad_coords d1 ++ (if bad_coords r then [] else [r])
        ++ drop_bad_coords d2 /\
    (forall s, bad_coords (Row.with_severity r s) = bad_coords r) /\
    drop_bad_coords
      [rec (Some 0) (Some 0) None (sev 3); rec (Some 0) seattle_lat None NaN] =
      [rec (Some 0) seattle_lat None NaN].
Proof.
  intros d1 d2 r. split; [apply bad_coords_dropped |].
  split; [| split; [intros s; now destruct r | reflexivity]].
  rewrite drop_bad_coords_app. f_equal.
  unfold drop_bad_coords at 1. simpl. now destruct (bad_coords r).
Qed.

(** C4, as stated, fails: a frame whose severities are all missing keeps
    them missing, and a severity off the scale is kept as it is. *)
Lemma C4_counterexample :
  (exists r, In r (clean [at_seattle (Some "A"%string) NaN]) /\
             ~ severity_in_scale r) /\
  (exists r, In r (clean [at_seattle (Some "A"%string) (sev 7)]) /\
             ~ severity_in_scale r).
Proof.
  split; eexists; (split; [left; reflexivity |]);
    intros (q & Hq & H1 & H5); simpl in Hq.
  - discriminate.
  - injection Hq as <-. now apply H5.
Qed.

(** C4, amended.  No cleaned record sits at (0, 0) and none lacks a
    coordinate.  When at least one input severity is present, every cleaned
    record has a severity; when the input severities that are present lie
    in [1, 5], so does every cleaned severity that is present. *)
Theorem C4_cleaned_records :
  forall (raw : frame) (r : Row.t),
    In r (clean raw) ->
    float_eqb (Row.longitude r) (Some 0) && float_eqb (Row.latitude r) (Some 0)
      = false /\
    Row.longitude r <> NaN /\ Row.latitude r <> NaN /\
    ((exists r0, In r0 raw /\ Row.severity r0 <> NaN) ->
     Row.severity r <> NaN) /\
    ((forall r0 q, In r0 raw -> Row.severity r0 = Some q -> 1 <= q <= 5) ->
     forall q, Row.severity r = Some q -> 1 <= q <= 5).
Proof.
  intros raw r Hin. apply clean_In in Hin as (r0 & Hr0 & Hbad & ->).
  rewrite <- (bad_coords_fill (median (map Row.severity raw))) in Hbad.
  destruct (bad_coords_false _ Hbad) as (H1 & H2 & H3).
  split; [exact H1 |]. split; [exact H2 |]. split; [exact H3 |].
  rewrite fill_severity_severity. split.
  - intros Hex. apply median_some_of_notna in Hex.
    destruct (Row.severity r0); simpl; [discriminate | exact Hex].
  - intros Hscale q Hq.
    destruct (Row.severity r0) as [q0|] eqn:E; simpl in Hq.
    + injection Hq as <-. now apply (Hscale r0 q0).
    + eapply (median_in_range _ 1 5 q); [| exact Hq].
      intros q' Hq'. apply in_map_iff in Hq' as (r' & Hs & Hr').
      now apply (Hscale r' q').
Qed.

Lemma C4_cleaned_records_witness :
  let raw := [at_seattle (Some "A"%string) NaN;
              at_seattle (Some "A"%string) (sev 3)] in
  let r := at_seattle (Some "A"%string) (sev 3) in
  In r (clean raw) /\
  Row.longitude r <> NaN /\
  Row.severity r <> NaN.
Proof.
  split; [left; reflexivity |].
  destruct (C4_cleaned_records
              [at_seattle (Some "A"%string) NaN;
               at_seattle (Some "A"%string) (sev 3)]
              (at_seattle (Some "A"%string) (sev 3))
              (or_introl eq_refl)) as (_ & Hlon & _ & Hsev & _).
  split; [exact Hlon |].
  apply Hsev. exists (at_seattle (Some "A"%string) (sev 3)).
  split; [right; left; reflexivity | discriminate].
Defined.

(** ** Aggregation *)

Lemma clean_severity_notna (raw : frame) (r : Row.t) :
  (exists r0, In r0 raw /\ Row.severity r0 <> NaN) ->
  In r (clean raw) -> Row.severity r <> NaN.
Proof.
  intros Hex Hin. apply clean_In in Hin as (r0 & _ & _ & ->).
  rewrite fill_severity_severity. apply median_some_of_notna in Hex.
  destruct (Row.severity r0); simpl; [discriminate | exact Hex].
Qed.

Lemma mean_some (col : list float) :
  dropna col <> [] ->
  mean col =
  Some (Qred (Qsum (dropna col) / inject_Z (Z.of_nat (count col)))).
Proof.
  unfold mean, count. destruct (dropna col); [congruence | reflexivity].
Qed.

Lemma mean_is_mean (col : list float) (m : Q) :
  mean col = Some m ->
  m * inject_Z (Z.of_nat (count col)) == Qsum (dropna col).
Proof.
  intros Hm.
  assert (Hne : dropna col <> []).
  { intros E. unfold mean in Hm. rewrite E in Hm. discriminate. }
  rewrite (mean_some col Hne) in Hm.
  assert (Heq : m = Qred (Qsum (dropna col) / inject_Z (Z.of_nat (count col))))
    by congruence.
  rewrite Heq, Qred_correct.
  assert (Hn : ~ inject_Z (Z.of_nat (count col)) == 0).
  { unfold count. destruct (dropna col); [congruence |].
    intros H. unfold Qeq in H. simpl in H. lia. }
  field. exact Hn.
Qed.

Lemma mean_notna (col : list float) :
  mean col = NaN <-> dropna col = [].
Proof.
  unfold mean. destruct (dropna col); split; auto; discriminate.
Qed.

Lemma groupby_agg_In (df : frame) (a : Agg.t) :
  In a (groupby_agg df) <->
  In (Agg.neighborhood a) (group_keys df) /\
  Agg.total_barriers a =
    count (map Row.severity (get_group df (Agg.neighborhood a))) /\
  Agg.avg_severity a =
    mean (map Row.severity (get_group df (Agg.neighborhood a))).
Proof.
  unfold groupby_agg. rewrite in_map_iff. split.
  - intros (k & <- & Hk). simpl. auto.
  - intros (Hk & Ht & Hm). exists (Agg.neighborhood a). split; [| exact Hk].
    destruct a as [k t m]. simpl in *. now subst.
Qed.

Lemma groupby_agg_keys (df : frame) :
  map Agg.neighborhood (groupby_agg df) = group_keys df.
Proof.
  unfold groupby_agg. rewrite map_map. simpl. apply map_id.
Qed.

Lemma count_map_severity (g : frame) :
  count (map Row.severity g) =
  List.length (filter (fun r => notna (Row.severity r)) g).
Proof.
  unfold count. rewrite dropna_length.
  induction g as [|r g IH]; simpl; [reflexivity |].
  destruct (notna (Row.severity r)); simpl; now rewrite IH.
Qed.

Lemma notna_true (x : float) : notna x = true <-> x <> NaN.
Proof.
  unfold notna, NaN. destruct x; simpl; split; congruence.
Qed.

(** In a frame without missing severities every group has a mean. *)
Lemma group_mean_notna (df : frame) (k : string) :
  (forall r, In r df -> Row.severity r <> NaN) ->
  In k (group_keys df) ->
  mean (map Row.severity (get_group df k)) <> NaN.
Proof.
  intros Hall Hk Hm. apply mean_notna in Hm.
  apply group_keys_In in Hk as (r & Hr & Hnb).
  specialize (Hall r Hr).
  destruct (Row.severity r) as [q|] eqn:E; [| now apply Hall].
  assert (Hq : In q (dropna (map Row.severity (get_group df k)))).
  { apply dropna_In. rewrite <- E. apply in_map. now apply get_group_In. }
  rewrite Hm in Hq. exact Hq.
Qed.

Lemma stats_In (raw : frame) (s : Stats.t) :
  In s (stats (analyse raw)) <->
  exists a, In a (groupby_agg (clean raw)) /\ s = finalize a.
Proof. apply rank_In. Qed.

(** C7, as stated, fails: where no severity is present at all the group of
    a neighborhood with one record gets [total_barriers = 0]. *)
Lemma C7_counterexample :
  let d := clean [at_seattle (Some "A"%string) NaN] in
  groupby_agg d = [Agg.mk "A" 0 NaN] /\
  List.length (get_group d "A") = 1%nat.
Proof. split; reflexivity. Qed.

(** C7, amended.  The aggregation has exactly one row per distinct
    neighborhood of the cleaned data.  Its [total_barriers] is the number of
    records of the group that have a severity, and its [avg_severity] the
    arithmetic mean of these severities; when at least one input severity
    is present this is the number of records of the group and the mean of
    all its severities.  Records (A,4), (A,2), (B,5) give A: 2, 3.0, index
    6.0 and B: 1, 5.0, index 5.0, ranked A then B. *)
Theorem C7_one_row_per_neighborhood :
  forall raw : frame,
    let d := clean raw in
    let ag := groupby_agg d in
    NoDup (map Agg.neighborhood ag) /\
    (forall k, In k (map Agg.neighborhood ag) <->
               exists r, In r d /\ Row.neighborhood r = Some k) /\
    (forall a, In a ag ->
       let g := get_group d (Agg.neighborhood a) in
       Agg.total_barriers a =
         List.length (filter (fun r => notna (Row.severity r)) g) /\
       Agg.avg_severity a = mean (map Row.severity g) /\
       ((exists r0, In r0 raw /\ Row.severity r0 <> NaN) ->
        Agg.total_barriers a = List.length g /\
        exists m, Agg.avg_severity a = Some m /\
                  m * inject_Z (Z.of_nat (List.length g)) ==
                  Qsum (dropna (map Row.severity g)))) /\
    stats (analyse aggregation_example) =
      [Stats.mk "A" 2 (Some 3) (Some 6); Stats.mk "B" 1 (Some 5) (Some 5)].
Proof.
  intros raw d ag. unfold ag. rewrite groupby_agg_keys.
  split; [apply group_keys_NoDup |].
  split; [intros k; apply group_keys_In |].
  split; [| reflexivity].
  intros a Ha. set (g := get_group d (Agg.neighborhood a)).
  apply groupby_agg_In in Ha as (Hk & Ht & Hm). fold d g in Ht, Hm.
  rewrite count_map_severity in Ht.
  split; [exact Ht |]. split; [exact Hm |].
  intros Hex.
  assert (Hall : forall r, In r d -> Row.severity r <> NaN)
    by (intros r; now apply clean_severity_notna).
  assert (Hlen : Agg.total_barriers a = List.length g).
  { rewrite Ht, filter_all; [reflexivity |].
    apply Forall_forall. intros r Hr. apply notna_true, Hall.
    now apply get_group_In in Hr. }
  split; [exact Hlen |].
  destruct (mean (map Row.severity g)) as [m|] eqn:E.
  - exists m. split; [exact Hm |].
    rewrite <- Hlen, Ht, <- count_map_severity. now apply mean_is_mean.
  - exfalso. now apply (group_mean_notna d (Agg.neighborhood a) Hall Hk).
Qed.

Lemma C7_one_row_per_neighborhood_witness :
  let raw := aggregation_example in
  let a := Agg.mk "A" 2 (Some 3) in
  In a (groupby_agg (clean raw)) /\
  Agg.total_barriers a =
    List.length (get_group (clean raw) (Agg.neighborhood a)).
Proof.
  split; [left; reflexivity |].
  destruct (C7_one_row_per_neighborhood aggregation_example)
    as (_ & _ & H & _).
  destruct (H (Agg.mk "A" 2 (Some 3)) (or_introl eq_refl)) as (_ & _ & H').
  apply H'. exists (at_seattle (Some "A"%string) (sev 4)).
  split; [left; reflexivity | discriminate].
Defined.

(** ** The index *)

(** C1, as stated, fails: the reported index is 17.0, while the count times
    the reported (rounded) average, rounded to one decimal, is 16.9. *)
Lemma C1_counterexample :
  exists s,
    In s (stats (analyse eleven_ones_three_twos)) /\
    Stats.total_barriers s = 14%nat /\
    Stats.avg_severity s = Some (121 # 100) /\
    Stats.barrier_density_index s = Some 17 /\
    round 1 (mul_int_float (Stats.total_barriers s) (Stats.avg_severity s)) =
      Some (169 # 10) /\
    ~ 17 == 169 # 10.
Proof.
  eexists. split; [left; reflexivity |].
  repeat split; try reflexivity. intros H. discriminate H.
Qed.

(** C1, amended.  For every neighborhood of the report, the index is the
    number of barriers times the unrounded mean severity of the group,
    rounded to one decimal; the reported average is that same mean rounded
    to two decimals, and is rounded after the index has been computed. *)
Theorem C1_index_from_unrounded_mean :
  forall (raw : frame) (s : Stats.t),
    In s (stats (analyse raw)) ->
    let sevs :=
      map Row.severity (get_group (clean raw) (Stats.neighborhood s)) in
    Stats.total_barriers s = count sevs /\
    Stats.avg_severity s = round 2 (mean sevs) /\
    Stats.barrier_density_index s =
      round 1 (mul_int_float (Stats.total_barriers s) (mean sevs)).
Proof.
  intros raw s Hs. apply stats_In in Hs as (a & Ha & ->).
  apply groupby_agg_In in Ha as (_ & Ht & Hm).
  destruct a as [k t m]. simpl in *. subst. auto.
Qed.

Lemma C1_index_from_unrounded_mean_witness :
  let raw := eleven_ones_three_twos in
  let s := Stats.mk "A" 14 (Some (121 # 100)) (Some 17) in
  In s (stats (analyse raw)) /\
  Stats.barrier_density_index s =
    round 1 (mul_int_float (Stats.total_barriers s)
               (mean (map Row.severity (get_group (clean raw) "A")))).
Proof.
  split; [left; reflexivity |].
  apply (C1_index_from_unrounded_mean eleven_ones_three_twos
           (Stats.mk "A" 14 (Some (121 # 100)) (Some 17))
           (or_introl eq_refl)).
Defined.

(** ** Totals *)

Lemma stats_total (raw : frame) :
  sum_total_barriers (stats (analyse raw)) =
  List.length (filter counted (clean raw)).
Proof. simpl. now rewrite rank_total, groupby_agg_total. Qed.

Lemma filter_counted_keyed (d : frame) :
  (forall r, In r d -> Row.severity r <> NaN) ->
  filter counted d = filter keyed d.
Proof.
  intros Hall. apply filter_ext_in'. intros r Hr. unfold counted.
  rewrite (proj2 (notna_true _) (Hall r Hr)). apply andb_true_r.
Qed.

(** C3, as stated, fails: a cleaned record without neighborhood is in no
    group. *)
Lemma C3_counterexample :
  let a := analyse [at_seattle None (sev 3)] in
  sum_total_barriers (stats a) = 0%nat /\ List.length (df a) = 1%nat.
Proof. split; reflexivity. Qed.

(** C3, amended.  The sum of [total_barriers] over the report is the number
    of cleaned records that have both a neighborhood and a severity, hence
    at most the number of cleaned records; when at least one input severity
    is present it is the number of cleaned records that have a
    neighborhood. *)
Theorem C3_total_barriers_sum :
  forall raw : frame,
    let a := analyse raw in
    sum_total_barriers (stats a) = List.length (filter counted (df a)) /\
    (sum_total_barriers (stats a) <= clean_rows a)%nat /\
    ((exists r0, In r0 raw /\ Row.severity r0 <> NaN) ->
     sum_total_barriers (stats a) = List.length (filter keyed (df a))).
Proof.
  intros raw a. unfold a. rewrite stats_total.
  split; [reflexivity |]. split; [apply filter_length_le |].
  intros Hex. simpl. rewrite filter_counted_keyed; [reflexivity |].
  intros r. now apply clean_severity_notna.
Qed.

Lemma C3_total_barriers_sum_witness :
  let a := analyse aggregation_example in
  sum_total_barriers (stats a) = List.length (filter keyed (df a)).
Proof.
  apply (C3_total_barriers_sum aggregation_example).
  exists (at_seattle (Some "A"%string) (sev 4)).
  split; [left; reflexivity | discriminate].
Defined.

(** ** Null neighborhoods *)

Lemma flat_map_filter_keyed (d : frame) :
  flat_map key_cells (filter keyed d) = flat_map key_cells d.
Proof.
  induction d as [|r d IH]; simpl; [reflexivity |].
  unfold keyed at 1, key_cells at 2.
  destruct (Row.neighborhood r) eqn:E; simpl; rewrite IH; [| reflexivity].
  unfold key_cells at 1. now rewrite E.
Qed.

Lemma get_group_filter_keyed (d : frame) (k : string) :
  get_group (filter keyed d) k = get_group d k.
Proof.
  unfold get_group. induction d as [|r d IH]; simpl; [reflexivity |].
  unfold keyed at 1, has_key at 2.
  destruct (Row.neighborhood r) eqn:E; simpl; [| exact IH].
  unfold has_key at 1. rewrite E. now rewrite IH.
Qed.

Lemma groupby_agg_filter_keyed (d : frame) :
  groupby_agg (filter keyed d) = groupby_agg d.
Proof.
  unfold groupby_agg, group_keys. fold key_cells.
  rewrite flat_map_filter_keyed. apply map_ext.
  intros k. now rewrite get_group_filter_keyed.
Qed.

Lemma filter_length_lt {A} (p : A -> bool) (l : list A) (x : A) :
  In x l -> p x = false -> (List.length (filter p l) < List.length l)%nat.
Proof.
  induction l as [|y l IH]; simpl; [tauto |].
  intros [-> | Hin] Hp.
  - rewrite Hp. pose proof (filter_length_le p l). lia.
  - specialize (IH Hin Hp). destruct (p y); simpl; lia.
Qed.

Lemma script_raise (raw : frame) (cls : string) :
  script raw = Raise cls -> cls = "IndexError"%string.
Proof.
  unfold script, insight, iloc.
  destruct (top10 (analyse raw)) as [|s1 [|s2 l]]; simpl; congruence.
Qed.

(** C10.  A cleaned record without neighborhood belongs to no group: the
    report and its top 10 are the ones computed from the cleaned records
    that have a neighborhood, so nothing in them tells how many records
    were left out; the record is counted in the number of cleaned rows but
    in no [total_barriers], and the run raises no error for it. *)
Theorem C10_null_neighborhood_excluded :
  forall (raw : frame) (r : Row.t),
    let a := analyse raw in
    In r (df a) ->
    Row.neighborhood r = None ->
    (forall s, In s (stats a) ->
               ~ In r (get_group (df a) (Stats.neighborhood s))) /\
    stats a = rank (groupby_agg (filter keyed (df a))) /\
    top10 a = head 10 (rank (groupby_agg (filter keyed (df a)))) /\
    (sum_total_barriers (stats a) < clean_rows a)%nat /\
    ~ fails_with "MissingGroupKeyError" (script raw).
Proof.
  intros raw r a Hin Hnb. split.
  - intros s _ Hg. apply get_group_In in Hg as [_ Hg]. congruence.
  - split; [unfold a; simpl; now rewrite groupby_agg_filter_keyed |].
    split; [unfold a; simpl df; now rewrite groupby_agg_filter_keyed |].
    split.
    + unfold a. rewrite stats_total. simpl.
      apply (filter_length_lt counted _ r Hin).
      unfold counted, keyed. now rewrite Hnb.
    + intros H. apply script_raise in H. discriminate.
Qed.

Lemma C10_null_neighborhood_excluded_witness :
  let raw := [at_seattle None (sev 3); at_seattle (Some "A"%string) (sev 4)] in
  let a := analyse raw in
  In (at_seattle None (sev 3)) (df a) /\
  stats a = rank (groupby_agg (filter keyed (df a))) /\
  (sum_total_barriers (stats a) < clean_rows a)%nat.
Proof.
  split; [left; reflexivity |].
  destruct (C10_null_neighborhood_excluded
              [at_seattle None (sev 3); at_seattle (Some "A"%string) (sev 4)]
              (at_seattle None (sev 3)) (or_introl eq_refl) eq_refl)
    as (_ & H1 & _ & H2 & _).
  split; [exact H1 | exact H2].
Defined.

(** ** Ranking order *)

Lemma finalize_index_notna (a : Agg.t) :
  Agg.avg_severity a <> NaN ->
  Stats.barrier_density_index (finalize a) <> NaN.
Proof.
  destruct a as [k t [m|]]; unfold finalize, NaN; simpl.
  - intros _ H. discriminate H.
  - intros H. now contradict H.
Qed.

Lemma stats_index_notna (raw : frame) (s : Stats.t) :
  (exists r0, In r0 raw /\ Row.severity r0 <> NaN) ->
  In s (stats (analyse raw)) -> Stats.barrier_density_index s <> NaN.
Proof.
  intros Hex Hs. apply stats_In in Hs as (a & Ha & ->).
  apply finalize_index_notna.
  apply groupby_agg_In in Ha as (Hk & _ & ->).
  apply group_mean_notna; [| exact Hk].
  intros r. now apply clean_severity_notna.
Qed.

(** C8, as stated, fails: without any severity both indices are NaN, and
    NaN >= NaN does not hold. *)
Lemma C8_counterexample :
  exists s t,
    nth_error (stats (analyse all_severities_missing)) 0 = Some s /\
    nth_error (stats (analyse all_severities_missing)) 1 = Some t /\
    ~ float_ge (Stats.barrier_density_index s) (Stats.barrier_density_index t).
Proof.
  do 2 eexists. split; [reflexivity |]. split; [reflexivity |].
  simpl. tauto.
Qed.

(** C8, amended.  In the ranked report, whenever the later of two
    consecutive entries has an index, the earlier one has an index too and
    it is greater or equal: entries without index (NaN) come last.  When at
    least one input severity is present every entry has an index, so the
    index of the earlier entry is greater than or equal to that of the
    later entry for every consecutive pair. *)
Theorem C8_ranked_descending :
  forall (raw : frame) (i : nat) (s t : Stats.t),
    nth_error (stats (analyse raw)) i = Some s ->
    nth_error (stats (analyse raw)) (S i) = Some t ->
    (Stats.barrier_density_index t <> NaN ->
     float_ge (Stats.barrier_density_index s) (Stats.barrier_density_index t))
    /\
    ((exists r0, In r0 raw /\ Row.severity r0 <> NaN) ->
     float_ge (Stats.barrier_density_index s) (Stats.barrier_density_index t)).
Proof.
  intros raw i s t Hs Ht.
  assert (Hge : Stats.barrier_density_index t <> NaN ->
                float_ge (Stats.barrier_density_index s)
                         (Stats.barrier_density_index t)).
  { intros Hna.
    pose proof (Sorted_consecutive _ _ (rank_sorted (groupby_agg (clean raw)))
                  i s t Hs Ht) as H.
    unfold index_geb in H. unfold float_ge.
    destruct (Stats.barrier_density_index s) as [x|],
             (Stats.barrier_density_index t) as [y|];
      try discriminate; try (now apply Hna).
    now apply Qle_bool_iff. }
  split; [exact Hge |].
  intros Hex. apply Hge. apply (stats_index_notna raw t Hex).
  eapply nth_error_In, Ht.
Qed.

Lemma C8_ranked_descending_witness :
  let st := stats (analyse three_neighborhoods) in
  let s := Stats.mk "A" 2 (Some 4) (Some 8) in
  let t := Stats.mk "C" 1 (Some 5) (Some 5) in
  nth_error st 0 = Some s /\ nth_error st 1 = Some t /\
  float_ge (Stats.barrier_density_index s) (Stats.barrier_density_index t).
Proof.
  split; [reflexivity |]. split; [reflexivity |].
  apply (C8_ranked_descending three_neighborhoods 0
           (Stats.mk "A" 2 (Some 4) (Some 8))
           (Stats.mk "C" 1 (Some 5) (Some 5)) eq_refl eq_refl).
  exists (at_seattle (Some "B"%string) (sev 2)).
  split; [left; reflexivity | discriminate].
Defined.

(** ** Short and empty inputs *)

(** C2, as stated, fails: with every row filtered out, aggregation still
    runs, on the empty frame, and no [EmptyDatasetError] is raised. *)
Lemma C2_counterexample :
  clean unlocated = [] /\
  stats (analyse unlocated) = [] /\
  ~ fails_with "EmptyDatasetError" (script unlocated).
Proof.
  split; [reflexivity |]. split; [reflexivity |]. intros H. discriminate H.
Qed.

(** C2, amended.  When coordinate filtering leaves no record, cleaning
    reports zero rows, aggregation and ranking produce an empty report and
    an empty top 10, and no [EmptyDatasetError] is raised. *)
Theorem C2_empty_after_filtering :
  forall raw : frame,
    clean raw = [] ->
    clean_rows (analyse raw) = 0%nat /\
    stats (analyse raw) = [] /\
    top10 (analyse raw) = [] /\
    ~ fails_with "EmptyDatasetError" (script raw).
Proof.
  intros raw Hc. unfold analyse. simpl. rewrite Hc. simpl.
  repeat split. intros H. apply script_raise in H. discriminate.
Qed.

Lemma C2_empty_after_filtering_witness :
  clean unlocated = [] /\ stats (analyse unlocated) = [].
Proof.
  split; [reflexivity |].
  apply (C2_empty_after_filtering unlocated eq_refl).
Defined.

Lemma top10_all_when_short (raw : frame) :
  (List.length (stats (analyse raw)) <= 10)%nat ->
  top10 (analyse raw) = stats (analyse raw).
Proof.
  intros H. change (top10 (analyse raw)) with (firstn 10 (stats (analyse raw))).
  now apply firstn_all2.
Qed.


(** C9.  On a data set with a single neighborhood the top 10 holds exactly
    that one entry, but the run does not complete: the second look-up of
    the summary ([top10.iloc[1]]) raises [IndexError]. *)
Theorem C9_single_neighborhood_run :
  top10 (analyse single_neighborhood) = [Stats.mk "A" 1 (Some 3) (Some 3)] /\
  iloc (top10 (analyse single_neighborhood)) 0 =
    Ok (Stats.mk "A" 1 (Some 3) (Some 3)) /\
  iloc (top10 (analyse single_neighborhood)) 1 = Raise "IndexError" /\
  script single_neighborhood = Raise "IndexError".
Proof. repeat split. Qed.

(** * Further properties of the script *)

(** ** Cleaning *)

Lemma fill_severity_fixed (m : float) (r : Row.t) :
  Row.severity r <> NaN \/ m = NaN -> fill_severity m r = r.
Proof.
  unfold fill_severity, NaN. destruct r as [lon lat lt nb [q|] tmp]; simpl.
  - reflexivity.
  - intros [H | ->]; [now contradict H | reflexivity].
Qed.

Lemma map_fixed {A} (f : A -> A) (l : list A) :
  (forall x, In x l -> f x = x) -> map f l = l.
Proof.
  induction l as [|x l IH]; simpl; intros H; [reflexivity |].
  rewrite (H x (or_introl eq_refl)), IH; auto.
Qed.

Lemma dropna_nil (col : list float) :
  dropna col = [] <-> forall x, In x col -> x = NaN.
Proof.
  induction col as [|[q|] col IH]; simpl.
  - split; [intros _ x [] | reflexivity].
  - split; [discriminate | intros H].
    specialize (H (Some q) (or_introl eq_refl)). discriminate.
  - rewrite IH. split; intros H.
    + intros x [<- | Hx]; [reflexivity | now apply H].
    + intros x Hx. apply H. now right.
Qed.

(** Once cleaned, a frame either has every severity or none. *)
Lemma clean_severities (raw : frame) :
  (forall r, In r (clean raw) -> Row.severity r <> NaN) \/
  (forall r, In r (clean raw) -> Row.severity r = NaN).
Proof.
  destruct (median (map Row.severity raw)) as [m|] eqn:E.
  - left. intros r Hr. apply clean_In in Hr as (r0 & _ & _ & ->).
    rewrite fill_severity_severity, E.
    destruct (Row.severity r0); simpl; discriminate.
  - right. intros r Hr. apply clean_In in Hr as (r0 & Hr0 & _ & ->).
    rewrite fill_severity_severity, E.
    apply median_notna in E. rewrite dropna_nil in E.
    rewrite (E (Row.severity r0)); [reflexivity | now apply in_map].
Qed.

Lemma drop_bad_coords_clean (raw : frame) :
  drop_bad_coords (clean raw) = clean raw.
Proof.
  unfold clean, drop_bad_coords. apply filter_all, Forall_forall.
  intros r Hr. now apply filter_In in Hr.
Qed.

(** X1.  Cleaning a cleaned frame changes nothing, and neither does analysing
    it: the report of a frame is the report of its cleaned frame. *)
Theorem clean_idempotent :
  forall raw : frame,
    clean (clean raw) = clean raw /\
    stats (analyse (df (analyse raw))) = stats (analyse raw) /\
    top10 (analyse (df (analyse raw))) = top10 (analyse raw).
Proof.
  intros raw.
  assert (H : clean (clean raw) = clean raw).
  { rewrite (clean_fill (clean raw)), drop_bad_coords_clean.
    apply map_fixed. intros r Hr. apply fill_severity_fixed.
    destruct (clean_severities raw) as [Hall | Hnone].
    - left. now apply Hall.
    - right. apply median_notna, dropna_nil.
      intros x Hx. apply in_map_iff in Hx as (r' & <- & Hr').
      now apply Hnone. }
  split; [exact H |]. unfold analyse. simpl. now rewrite H.
Qed.

Lemma filter_partition_length {A} (p : A -> bool) (l : list A) :
  List.length l =
  (List.length (filter p l) + List.length (filter (fun x => negb (p x)) l))%nat.
Proof.
  induction l as [|x l IH]; simpl; [reflexivity |].
  destruct (p x); simpl; lia.
Qed.

(** X2.  The rows reported as loaded are the rows reported as clean plus the
    rows with bad coordinates; filling severities neither adds nor removes
    a row. *)
Theorem row_accounting :
  forall raw : frame,
    let a := analyse raw in
    loaded_rows a = (clean_rows a + List.length (filter bad_coords raw))%nat /\
    List.length (impute raw) = loaded_rows a /\
    (clean_rows a <= loaded_rows a)%nat.
Proof.
  intros raw. simpl. rewrite clean_fill, length_map. unfold drop_bad_coords.
  unfold impute. rewrite length_map.
  pose proof (filter_partition_length bad_coords raw) as H.
  pose proof (filter_length_le (fun r => negb (bad_coords r)) raw).
  repeat split; lia.
Qed.

Lemma missing_sev_all (d : frame) :
  (forall r, In r d -> Row.severity r = NaN) -> missing_sev d = List.length d.
Proof.
  intros H. unfold missing_sev. rewrite filter_all; [reflexivity |].
  apply Forall_forall. intros r Hr. now rewrite (H r Hr).
Qed.

Lemma missing_sev_none (d : frame) :
  (forall r, In r d -> Row.severity r <> NaN) -> missing_sev d = 0%nat.
Proof.
  intros H. unfold missing_sev.
  induction d as [|r d IH]; simpl; [reflexivity |].
  destruct (Row.severity r) as [q|] eqn:E; simpl.
  - apply IH. intros r' Hr'. apply H. now right.
  - exfalso. apply (H r (or_introl eq_refl)). exact E.
Qed.

(** X3.  After line 30 no severity is missing when the column has a median.
    When it has none, every severity is missing, the imputation leaves the
    frame as it was, and the number reported as imputed is the number of
    rows, none of which got a value. *)
Theorem imputation_outcome :
  forall raw : frame,
    match median (map Row.severity raw) with
    | Some _ => missing_sev (impute raw) = 0%nat
    | None =>
        impute raw = raw /\
        imputed (analyse raw) = loaded_rows (analyse raw) /\
        missing_sev (impute raw) = loaded_rows (analyse raw)
    end.
Proof.
  intros raw. destruct (median (map Row.severity raw)) as [m|] eqn:E.
  - apply missing_sev_none. intros r Hr.
    rewrite impute_fill, E in Hr. apply in_map_iff in Hr as (r0 & <- & _).
    rewrite fill_severity_severity. destruct (Row.severity r0); discriminate.
  - assert (Hall : forall r, In r raw -> Row.severity r = NaN).
    { intros r Hr. apply median_notna in E. rewrite dropna_nil in E.
      apply E. now apply in_map. }
    assert (Hid : impute raw = raw).
    { rewrite impute_fill, E. apply map_fixed. intros r _.
      apply fill_severity_fixed. now right. }
    split; [exact Hid |]. rewrite Hid. simpl.
    split; now apply missing_sev_all.
Qed.

(** ** Rounding *)

Lemma scale_pos (d : nat) : 0 < scale d.
Proof.
  unfold scale, Qlt. simpl. rewrite Z.mul_1_r.
  apply Z.pow_pos_nonneg; lia.
Qed.

Lemma round_Some (d : nat) (q : Q) :
  round d (Some q) = Some (Qred (inject_Z (rint (q * scale d)) / scale d)).
Proof. reflexivity. Qed.

Lemma rint_floor (q : Q) : (Qfloor q <= rint q <= Qfloor q + 1)%Z.
Proof.
  unfold rint. destruct (Qcompare _ _); [destruct (Z.even _) | |]; lia.
Qed.


Lemma rint_ge_Z (z : Z) (q : Q) : inject_Z z <= q -> (z <= rint q)%Z.
Proof.
  intros H. apply Qfloor_resp_le in H. rewrite Qfloor_Z in H.
  pose proof (rint_floor q). lia.
Qed.

Lemma rint_le_Z (z : Z) (q : Q) : q <= inject_Z z -> (rint q <= z)%Z.
Proof.
  intros H. pose proof (Qfloor_resp_le _ _ H) as Hf. rewrite Qfloor_Z in Hf.
  destruct (Z.eq_dec (Qfloor q) z) as [E | E].
  - pose proof (Qfloor_le q) as Hlo.
    assert (Hlt : q - inject_Z (Qfloor q) < 1 # 2) by (rewrite E in *; lra).
    unfold rint.
    destruct (Qcompare (q - inject_Z (Qfloor q)) (1 # 2)) eqn:E'.
    + apply Qeq_alt in E'. lra.
    + lia.
    + apply Qgt_alt in E'. lra.
  - pose proof (rint_floor q). lia.
Qed.

Lemma rint_Z (z : Z) : rint (inject_Z z) = z.
Proof.
  apply Z.le_antisymm; [apply rint_le_Z | apply rint_ge_Z]; apply Qle_refl.
Qed.

Lemma rint_comp (p q : Q) : p == q -> rint p = rint q.
Proof.
  intros H. unfold rint. rewrite (Qfloor_comp _ _ H).
  assert (Hc : Qcompare (p - inject_Z (Qfloor q)) (1 # 2) =
               Qcompare (q - inject_Z (Qfloor q)) (1 # 2))
    by (apply Qcompare_comp; [now rewrite H | reflexivity]).
  now rewrite Hc.
Qed.


(** Rounding never crosses an integer. *)
Lemma round_in_Z_range (d : nat) (lo hi : Z) (q r : Q) :
  inject_Z lo <= q <= inject_Z hi ->
  round d (Some q) = Some r ->
  inject_Z lo <= r <= inject_Z hi.
Proof.
  intros [Hlo Hhi]. rewrite round_Some. intros H.
  assert (Hr : r = Qred (inject_Z (rint (q * scale d)) / scale d))
    by congruence.
  pose proof (scale_pos d) as Hs. rewrite Hr, Qred_correct.
  assert (Hsc : forall z, inject_Z z * scale d ==
                          inject_Z (z * 10 ^ Z.of_nat d))
    by (intros z; unfold scale; now rewrite inject_Z_mult).
  split.
  - apply Qle_shift_div_l; [exact Hs |]. rewrite Hsc, <- Zle_Qle.
    apply rint_ge_Z. rewrite <- Hsc. apply Qmult_le_compat_r; lra.
  - apply Qle_shift_div_r; [exact Hs |]. rewrite Hsc, <- Zle_Qle.
    apply rint_le_Z. rewrite <- Hsc. apply Qmult_le_compat_r; lra.
Qed.

(** Rounding a rounded value again, to the same number of decimals, gives
    it back: the table written to the export can be re-rounded freely. *)
Lemma round_idempotent :
  forall (d : nat) (x : float), round d (round d x) = round d x.
Proof.
  intros d [q|]; [| reflexivity].
  rewrite (round_Some d q), round_Some. do 2 f_equal.
  pose proof (scale_pos d) as Hs.
  assert (Hne : ~ scale d == 0) by lra.
  f_equal. f_equal.
  rewrite <- (rint_Z (rint (q * scale d))) at 2.
  apply rint_comp. rewrite Qred_correct. field. exact Hne.
Qed.

(** ** Means *)

Lemma Qsum_bounds (v : list Q) (lo hi : Q) :
  (forall x, In x v -> lo <= x <= hi) ->
  lo * inject_Z (Z.of_nat (List.length v)) <= Qsum v /\
  Qsum v <= hi * inject_Z (Z.of_nat (List.length v)).
Proof.
  induction v as [|x v IH]; intros H.
  - change (inject_Z (Z.of_nat (List.length (@nil Q)))) with 0.
    change (Qsum []) with 0. split; lra.
  - destruct IH as [IH1 IH2]; [intros y Hy; apply H; now right |].
    destruct (H x (or_introl eq_refl)) as [Hx1 Hx2].
    change (List.length (x :: v)) with (S (List.length v)).
    rewrite Nat2Z.inj_succ, <- Z.add_1_r, inject_Z_plus.
    change (inject_Z 1) with 1. simpl Qsum. split; lra.
Qed.

Lemma count_pos_of_mean (col : list float) (m : Q) :
  mean col = Some m -> 0 < inject_Z (Z.of_nat (count col)).
Proof.
  unfold mean, count. destruct (dropna col); [discriminate |].
  intros _. unfold Qlt. simpl. lia.
Qed.

(** The mean of a column lies between any two bounds of its values. *)
Lemma mean_in_range (col : list float) (lo hi m : Q) :
  (forall q, In (Some q) col -> lo <= q <= hi) ->
  mean col = Some m -> lo <= m <= hi.
Proof.
  intros Hr Hm. pose proof (count_pos_of_mean col m Hm) as Hn.
  pose proof (mean_is_mean col m Hm) as Hs.
  destruct (Qsum_bounds (dropna col) lo hi) as [H1 H2].
  { intros x Hx. now apply Hr, dropna_In. }
  fold (count col) in H1, H2. rewrite <- Hs in H1, H2.
  split; eapply Qmult_le_r; eassumption.
Qed.

(** ** The report, row by row *)

Lemma clean_severity_in_scale (raw : frame) (r : Row.t) (q : Q) :
  (forall r0 q0, In r0 raw -> Row.severity r0 = Some q0 -> 1 <= q0 <= 5) ->
  In r (clean raw) -> Row.severity r = Some q -> 1 <= q <= 5.
Proof.
  intros Hscale Hin. apply clean_In in Hin as (r0 & Hr0 & _ & ->).
  rewrite fill_severity_severity. intros Hq.
  destruct (Row.severity r0) as [q0|] eqn:E; simpl in Hq.
  - assert (q0 = q) by congruence. subst. now apply (Hscale r0).
  - eapply (median_in_range _ 1 5 q); [| exact Hq].
    intros q' Hq'. apply in_map_iff in Hq' as (r' & Hs & Hr').
    now apply (Hscale r' q').
Qed.

Lemma fill_severity_neighborhood (m : float) (r : Row.t) :
  Row.neighborhood (fill_severity m r) = Row.neighborhood r.
Proof. destruct r as [lon lat lt nb [q|] tmp]; reflexivity. Qed.

Lemma stats_neighborhoods (raw : frame) :
  Permutation (map Stats.neighborhood (stats (analyse raw)))
              (group_keys (clean raw)).
Proof.
  simpl. rewrite <- groupby_agg_keys.
  eapply perm_trans; [apply Permutation_map, rank_perm |].
  rewrite map_map. apply Permutation_refl.
Qed.

Lemma report_names_NoDup (raw : frame) :
  NoDup (map Stats.neighborhood (stats (analyse raw))).
Proof.
  eapply Permutation_NoDup;
    [apply Permutation_sym, stats_neighborhoods | apply group_keys_NoDup].
Qed.

Lemma report_names_In (raw : frame) (k : string) :
  In k (map Stats.neighborhood (stats (analyse raw))) <->
  exists r, In r raw /\ bad_coords r = false /\ Row.neighborhood r = Some k.
Proof.
  pose proof (stats_neighborhoods raw) as Hp. split.
  - intros Hk. apply (Permutation_in _ Hp), group_keys_In in Hk.
    destruct Hk as (r & Hr & Hnb).
    apply clean_In in Hr as (r0 & Hr0 & Hbad & ->).
    rewrite fill_severity_neighborhood in Hnb. eauto.
  - intros (r0 & Hr0 & Hbad & Hnb).
    apply (Permutation_in _ (Permutation_sym Hp)), group_keys_In.
    exists (fill_severity (median (map Row.severity raw)) r0).
    rewrite fill_severity_neighborhood. split; [| exact Hnb].
    apply clean_In. eauto.
Qed.

(** X4.  The report has one row for each neighborhood that occurs on an input
    row with usable coordinates, none twice, and no row for anything else:
    ranking neither loses nor repeats a neighborhood. *)
Theorem report_neighborhoods :
  forall (raw : frame) (k : string),
    let names := map Stats.neighborhood (stats (analyse raw)) in
    NoDup names /\
    (In k names <->
     exists r, In r raw /\ bad_coords r = false /\
               Row.neighborhood r = Some k) /\
    List.length (stats (analyse raw)) = List.length (group_keys (clean raw)).
Proof.
  intros raw k names. split; [apply report_names_NoDup |].
  split; [apply report_names_In |].
  rewrite <- (length_map Stats.neighborhood).
  apply Permutation_length, stats_neighborhoods.
Qed.

Lemma has_key_fill (m : float) (k : string) (r : Row.t) :
  has_key k (fill_severity m r) = has_key k r.
Proof. unfold has_key. now rewrite fill_severity_neighborhood. Qed.

Lemma filter_filter {A} (p q : A -> bool) (l : list A) :
  filter p (filter q l) = filter (fun x => q x && p x) l.
Proof.
  induction l as [|x l IH]; simpl; [reflexivity |].
  destruct (q x); simpl; [destruct (p x) |]; now rewrite IH.
Qed.

Lemma get_group_clean_length (raw : frame) (k : string) :
  List.length (get_group (clean raw) k) =
  List.length (filter (fun r => negb (bad_coords r) && has_key k r) raw).
Proof.
  unfold get_group. rewrite clean_fill, filter_map_comm, length_map.
  unfold drop_bad_coords. rewrite filter_filter. f_equal.
  apply filter_ext. intros r. now rewrite has_key_fill.
Qed.

(** X5.  When at least one severity is recorded, the [total_barriers] of a
    neighborhood is the number of input rows of that neighborhood with
    usable coordinates, whether or not they came with a severity, and it is
    never zero. *)
Theorem total_barriers_counts_located_rows :
  forall (raw : frame) (s : Stats.t),
    (exists r0, In r0 raw /\ Row.severity r0 <> NaN) ->
    In s (stats (analyse raw)) ->
    Stats.total_barriers s =
      List.length (filter (fun r => negb (bad_coords r) &&
                                    has_key (Stats.neighborhood s) r) raw) /\
    (1 <= Stats.total_barriers s)%nat.
Proof.
  intros raw s Hex Hs. apply stats_In in Hs as (a & Ha & ->).
  apply groupby_agg_In in Ha as (Hk & Ht & _).
  change (Stats.total_barriers (finalize a)) with (Agg.total_barriers a).
  change (Stats.neighborhood (finalize a)) with (Agg.neighborhood a).
  rewrite count_map_severity, filter_all in Ht.
  2:{ apply Forall_forall. intros r Hr. apply notna_true.
      apply get_group_In in Hr as [Hr _].
      now apply (clean_severity_notna raw). }
  rewrite Ht. split; [apply get_group_clean_length |].
  apply group_keys_In in Hk as (r & Hr & Hnb).
  assert (Hin : In r (get_group (clean raw) (Agg.neighborhood a)))
    by now apply get_group_In.
  destruct (get_group (clean raw) (Agg.neighborhood a)); [destruct Hin |].
  simpl. lia.
Qed.

Lemma total_barriers_counts_located_rows_witness :
  let s := Stats.mk "A" 2 (Some 4) (Some 8) in
  In s (stats (analyse three_neighborhoods)) /\
  Stats.total_barriers s =
    List.length (filter (fun r => negb (bad_coords r) && has_key "A" r)
                   three_neighborhoods).
Proof.
  split; [left; reflexivity |].
  apply (total_barriers_counts_located_rows three_neighborhoods
           (Stats.mk "A" 2 (Some 4) (Some 8))).
  - exists (at_seattle (Some "B"%string) (sev 2)).
    split; [left; reflexivity | discriminate].
  - left; reflexivity.
Defined.

(** X6.  When at least one severity is recorded and the recorded severities lie
    between 1 and 5, every reported average lies between 1 and 5 and every
    index between the number of barriers and five times that number. *)
Theorem report_within_scale :
  forall (raw : frame) (s : Stats.t),
    (exists r0, In r0 raw /\ Row.severity r0 <> NaN) ->
    (forall r0 q0, In r0 raw -> Row.severity r0 = Some q0 -> 1 <= q0 <= 5) ->
    In s (stats (analyse raw)) ->
    exists v x,
      Stats.avg_severity s = Some v /\ 1 <= v <= 5 /\
      Stats.barrier_density_index s = Some x /\
      inject_Z (Z.of_nat (Stats.total_barriers s)) <= x /\
      x <= 5 * inject_Z (Z.of_nat (Stats.total_barriers s)).
Proof.
  intros raw s Hex Hscale Hs. apply stats_In in Hs as (a & Ha & ->).
  apply groupby_agg_In in Ha as (Hk & _ & Hm).
  change (Stats.total_barriers (finalize a)) with (Agg.total_barriers a).
  change (Stats.avg_severity (finalize a))
    with (round 2 (Agg.avg_severity a)).
  change (Stats.barrier_density_index (finalize a))
    with (round 1 (mul_int_float (Agg.total_barriers a) (Agg.avg_severity a))).
  set (t := Agg.total_barriers a).
  destruct (Agg.avg_severity a) as [m|] eqn:E.
  2:{ exfalso. symmetry in Hm. revert Hm.
      apply group_mean_notna; [| exact Hk].
      intros r. now apply clean_severity_notna. }
  assert (Hr : 1 <= m <= 5).
  { symmetry in Hm. apply (mean_in_range _ 1 5 m) in Hm; [exact Hm |].
    intros q Hq. apply in_map_iff in Hq as (r & Hq & Hr).
    apply get_group_In in Hr as [Hr _].
    now apply (clean_severity_in_scale raw r q Hscale). }
  simpl mul_int_float. rewrite !round_Some.
  eexists. eexists. split; [reflexivity |].
  split; [apply (round_in_Z_range 2 1 5 m); [exact Hr | apply round_Some] |].
  split; [reflexivity |].
  assert (Ht : 0 <= inject_Z (Z.of_nat t))
    by (rewrite <- (Zle_Qle 0); lia).
  destruct (round_in_Z_range 1 (Z.of_nat t) (5 * Z.of_nat t)
              (inject_Z (Z.of_nat t) * m) _
              ltac:(rewrite inject_Z_mult; change (inject_Z 5) with 5;
                    split; nra)
              (round_Some 1 _)) as [H1 H2].
  rewrite inject_Z_mult in H2. change (inject_Z 5) with 5 in H2.
  split; assumption.
Qed.

Lemma report_within_scale_witness :
  let s := Stats.mk "A" 2 (Some 4) (Some 8) in
  exists v x,
    Stats.avg_severity s = Some v /\ 1 <= v <= 5 /\
    Stats.barrier_density_index s = Some x /\
    inject_Z (Z.of_nat (Stats.total_barriers s)) <= x /\
    x <= 5 * inject_Z (Z.of_nat (Stats.total_barriers s)).
Proof.
  apply (report_within_scale three_neighborhoods
           (Stats.mk "A" 2 (Some 4) (Some 8))).
  - exists (at_seattle (Some "B"%string) (sev 2)).
    split; [left; reflexivity | discriminate].
  - intros r0 q0 [<- | [<- | [<- | [<- | []]]]] [= <-];
      split; discriminate.
  - left; reflexivity.
Defined.



(** ** Ranking, top 10 and the bar chart *)

Lemma index_geb_trans (s t u : Stats.t) :
  index_geb s t = true -> index_geb t u = true -> index_geb s u = true.
Proof.
  unfold index_geb.
  destruct (Stats.barrier_density_index s), (Stats.barrier_density_index t),
           (Stats.barrier_density_index u); try discriminate; auto.
  intros H1 H2. eapply Qle_bool_trans; eassumption.
Qed.

Lemma rank_strongly_sorted (ag : list Agg.t) :
  StronglySorted (fun s t => index_geb s t = true) (rank ag).
Proof.
  apply insertion_sort_strongly_sorted;
    [apply index_geb_total | apply index_geb_trans].
Qed.

Lemma StronglySorted_app_cross {A} (R : A -> A -> Prop) (l1 l2 : list A) :
  StronglySorted R (l1 ++ l2) ->
  forall x y, In x l1 -> In y l2 -> R x y.
Proof.
  induction l1 as [|a l1 IH]; simpl; intros Hs x y Hx Hy; [destruct Hx |].
  inversion Hs as [|? ? Hs' Hall]; subst.
  destruct Hx as [<- | Hx].
  - eapply (proj1 (Forall_forall _ _) Hall). apply in_or_app. now right.
  - now apply IH.
Qed.

Lemma index_geb_float_ge (s t : Stats.t) :
  Stats.barrier_density_index t <> NaN ->
  index_geb s t = true ->
  float_ge (Stats.barrier_density_index s) (Stats.barrier_density_index t).
Proof.
  unfold index_geb, float_ge, NaN.
  destruct (Stats.barrier_density_index s), (Stats.barrier_density_index t);
    intros Hna H; try discriminate; try (now contradict Hna).
  now apply Qle_bool_iff.
Qed.

(** X8.  When at least one severity is recorded, no neighborhood left out of
    the top 10 has a larger index than one that is in it. *)
Theorem top10_holds_the_largest :
  forall (raw : frame) (s t : Stats.t),
    (exists r0, In r0 raw /\ Row.severity r0 <> NaN) ->
    In s (top10 (analyse raw)) ->
    In t (skipn 10 (stats (analyse raw))) ->
    float_ge (Stats.barrier_density_index s) (Stats.barrier_density_index t).
Proof.
  intros raw s t Hex Hs Ht.
  change (top10 (analyse raw)) with (firstn 10 (stats (analyse raw))) in Hs.
  apply index_geb_float_ge.
  - apply (stats_index_notna raw t Hex).
    rewrite <- (firstn_skipn 10 (stats (analyse raw))).
    apply in_or_app. now right.
  - pose proof (rank_strongly_sorted (groupby_agg (clean raw))) as Hss.
    change (rank (groupby_agg (clean raw))) with (stats (analyse raw)) in Hss.
    rewrite <- (firstn_skipn 10 (stats (analyse raw))) in Hss.
    exact (StronglySorted_app_cross _ _ _ Hss s t Hs Ht).
Qed.

Lemma top10_holds_the_largest_witness :
  let s := Stats.mk "B" 1 (Some 5) (Some 5) in
  let t := Stats.mk "C" 1 (Some 1) (Some 1) in
  In s (top10 (analyse eleven_neighborhoods)) /\
  In t (skipn 10 (stats (analyse eleven_neighborhoods))) /\
  float_ge (Stats.barrier_density_index s) (Stats.barrier_density_index t).
Proof.
  split; [left; reflexivity |]. split; [left; reflexivity |].
  apply (top10_holds_the_largest eleven_neighborhoods
           (Stats.mk "B" 1 (Some 5) (Some 5))
           (Stats.mk "C" 1 (Some 1) (Some 1))).
  - exists (at_seattle (Some "A"%string) (sev 3)).
    split; [left; reflexivity | discriminate].
  - left; reflexivity.
  - left; reflexivity.
Defined.

Lemma total_leb_total (s t : Stats.t) :
  total_leb s t = false -> total_leb t s = true.
Proof.
  unfold total_leb. rewrite Nat.leb_gt, Nat.leb_le. lia.
Qed.

(** X9.  The bar chart shows the rows of the top 10, each once, by ascending
    number of barriers. *)
Theorem bar_chart_rows_ascending :
  forall top : list Stats.t,
    Permutation (bar_chart_rows top) top /\
    forall (i : nat) (s t : Stats.t),
      nth_error (bar_chart_rows top) i = Some s ->
      nth_error (bar_chart_rows top) (S i) = Some t ->
      (Stats.total_barriers s <= Stats.total_barriers t)%nat.
Proof.
  intros top. split; [apply insertion_sort_perm |].
  intros i s t Hs Ht.
  pose proof (Sorted_consecutive _ _
                (insertion_sort_sorted total_leb total_leb_total top)
                i s t Hs Ht) as H.
  now apply Nat.leb_le in H.
Qed.

Lemma bar_chart_rows_ascending_witness :
  let s := Stats.mk "B" 1 (Some 2) (Some 2) in
  let t := Stats.mk "A" 2 (Some 4) (Some 8) in
  (Stats.total_barriers s <= Stats.total_barriers t)%nat.
Proof.
  apply (proj2 (bar_chart_rows_ascending (top10 (analyse three_neighborhoods)))
           1%nat (Stats.mk "B" 1 (Some 2) (Some 2))
           (Stats.mk "A" 2 (Some 4) (Some 8)) eq_refl eq_refl).
Defined.

(** ** The summary *)




(** X11.  When the summary finds its two rows, they are the first two of the
    ranking and name different neighborhoods; with at least one severity
    recorded the first has the greater or equal index.  Nothing makes the
    second have the higher average severity that the printed sentence
    announces. *)
Theorem insight_rows :
  forall (raw : frame) (n1 n2 : Stats.t),
    insight (top10 (analyse raw)) = Ok (n1, n2) ->
    nth_error (stats (analyse raw)) 0 = Some n1 /\
    nth_error (stats (analyse raw)) 1 = Some n2 /\
    Stats.neighborhood n1 <> Stats.neighborhood n2 /\
    ((exists r0, In r0 raw /\ Row.severity r0 <> NaN) ->
     float_ge (Stats.barrier_density_index n1)
              (Stats.barrier_density_index n2)).
Proof.
  intros raw n1 n2. unfold insight, iloc.
  change (top10 (analyse raw)) with (firstn 10 (stats (analyse raw))).
  pose proof (report_names_NoDup raw) as Hnd.
  pose proof (rank_sorted (groupby_agg (clean raw))) as Hs.
  change (rank (groupby_agg (clean raw))) with (stats (analyse raw)) in Hs.
  pose proof (stats_index_notna raw) as Hna.
  destruct (stats (analyse raw)) as [|s1 [|s2 l]]; simpl; try discriminate.
  intros H. assert (s1 = n1 /\ s2 = n2) as [-> ->] by (split; congruence).
  split; [reflexivity |]. split; [reflexivity |]. split.
  - simpl in Hnd. inversion Hnd as [|? ? Hx _]; subst.
    intros E. apply Hx. left. now symmetry.
  - intros Hex. apply index_geb_float_ge.
    + apply (Hna n2 Hex). right. now left.
    + inversion Hs as [|? ? _ Hhd]; subst. now inversion Hhd.
Qed.

Lemma insight_rows_witness :
  let n1 := Stats.mk "A" 2 (Some 3) (Some 6) in
  let n2 := Stats.mk "B" 1 (Some 5) (Some 5) in
  Stats.neighborhood n1 <> Stats.neighborhood n2 /\
  float_ge (Stats.barrier_density_index n1) (Stats.barrier_density_index n2).
Proof.
  destruct (insight_rows aggregation_example
              (Stats.mk "A" 2 (Some 3) (Some 6))
              (Stats.mk "B" 1 (Some 5) (Some 5)) eq_refl)
    as (_ & _ & Hne & Hge).
  split; [exact Hne |]. apply Hge.
  exists (at_seattle (Some "A"%string) (sev 4)).
  split; [left; reflexivity | discriminate].
Defined.

(** ** The map *)

Lemma clean_coords (raw : frame) (r : Row.t) :
  In r (clean raw) ->
  exists lat lon,
    Row.latitude r = Some lat /\ Row.longitude r = Some lon /\
    ~ (lon == 0 /\ lat == 0).
Proof.
  intros Hr. unfold clean, drop_bad_coords in Hr.
  apply filter_In in Hr as [_ Hb].
  apply negb_true_iff, bad_coords_false in Hb as (H0 & Hlon & Hlat).
  unfold NaN in *.
  destruct (Row.latitude r) as [lat|], (Row.longitude r) as [lon|];
    try congruence.
  exists lat, lon. repeat split. intros [Hx Hy].
  simpl in H0. rewrite (Qeq_eq_bool _ _ Hx), (Qeq_eq_bool _ _ Hy) in H0.
  discriminate.
Qed.

Lemma dropna_map_nil {A} (f : A -> float) (l : list A) :
  (forall x, In x l -> f x <> NaN) ->
  (dropna (map f l) = [] <-> l = []).
Proof.
  intros H. split; [| intros ->; reflexivity].
  destruct l as [|x l]; [reflexivity |]. intros E. exfalso.
  rewrite dropna_nil in E. apply (H x (or_introl eq_refl)).
  apply E. now left.
Qed.

(** X12.  The centre of the map is undefined (NaN) exactly when cleaning has
    left no row. *)
Theorem map_center_defined :
  forall raw : frame,
    (center_lat (clean raw) = NaN <-> clean raw = []) /\
    (center_lon (clean raw) = NaN <-> clean raw = []).
Proof.
  intros raw. unfold center_lat, center_lon. rewrite !mean_notna.
  split; apply dropna_map_nil; intros r Hr;
    destruct (clean_coords raw r Hr) as (lat & lon & Hlat & Hlon & _);
    unfold NaN; congruence.
Qed.



(** X14.  The heat map gets one point per cleaned row, each with a latitude and
    a longitude that are present and not both zero, weighted by a severity
    that is present as soon as one severity is recorded. *)
Theorem heat_data_points :
  forall raw : frame,
    List.length (heat_data (df (analyse raw))) = clean_rows (analyse raw) /\
    forall p, In p (heat_data (df (analyse raw))) ->
      exists lat lon weight,
        p = [Some lat; Some lon; weight] /\
        ~ (lon == 0 /\ lat == 0) /\
        ((exists r0, In r0 raw /\ Row.severity r0 <> NaN) -> weight <> NaN).
Proof.
  intros raw. simpl. unfold heat_data. rewrite length_map.
  split; [reflexivity |].
  intros p Hp. apply in_map_iff in Hp as (r & <- & Hr).
  destruct (clean_coords raw r Hr) as (lat & lon & -> & -> & H0).
  exists lat, lon, (Row.severity r). repeat split; [exact H0 |].
  intros Hex. now apply (clean_severity_notna raw).
Qed.

Lemma heat_data_points_witness :
  exists lat lon weight,
    [seattle_lat; seattle_lon; sev 4] = [Some lat; Some lon; weight] /\
    ~ (lon == 0 /\ lat == 0).
Proof.
  destruct (proj2 (heat_data_points aggregation_example)
              [seattle_lat; seattle_lon; sev 4] (or_introl eq_refl))
    as (lat & lon & weight & H1 & H2 & _).
  exists lat, lon, weight. split; [exact H1 | exact H2].
Defined.

Lemma float_geb_true (x : float) (b : Q) :
  float_geb x (Some b) = true <-> exists q, x = Some q /\ b <= q.
Proof.
  destruct x as [q|]; simpl.
  - rewrite Qle_bool_iff. split; [eauto |].
    intros (q' & Hq & H). congruence.
  - split; [discriminate | intros (q & Hq & _); discriminate].
Qed.

Lemma severe_df_In (d : frame) (r : Row.t) :
  In r (severe_df d) -> In r d /\ is_severe r = true.
Proof.
  intros Hr. apply filter_In.
  rewrite <- (firstn_skipn 900 (filter is_severe d)).
  apply in_or_app. now left.
Qed.

(** X15.  The rows marked on the map are the first rows, in the order of the
    frame, whose severity is present and at least 5; there are at most 900
    of them, and when the frame has at most 900 such rows all are marked. *)
Theorem severe_rows :
  forall d : frame,
    (List.length (severe_df d) <= 900)%nat /\
    (exists rest, filter is_severe d = severe_df d ++ rest) /\
    (forall r, In r (severe_df d) ->
               In r d /\ exists q, Row.severity r = Some q /\ 5 <= q) /\
    ((List.length (filter is_severe d) <= 900)%nat ->
     severe_df d = filter is_severe d).
Proof.
  intros d.
  split; [apply firstn_le_length |].
  split; [exists (skipn 900 (filter is_severe d));
          symmetry; apply firstn_skipn |].
  split; [| apply firstn_all2].
  intros r Hr. apply severe_df_In in Hr as [Hin Hs].
  split; [exact Hin |]. now apply float_geb_true.
Qed.

Lemma severe_rows_witness :
  severe_df (clean survey_sample) = filter is_severe (clean survey_sample).
Proof.
  apply (proj2 (proj2 (proj2 (severe_rows (clean survey_sample))))).
  vm_compute. lia.
Defined.

(** X16.  Every marker stands at the coordinates of a cleaned row, which are
    present and not both zero; there are at most 900 markers. *)
Theorem markers_located :
  forall raw : frame,
    (List.length (circle_markers (clean raw)) <= 900)%nat /\
    forall mk, In mk (circle_markers (clean raw)) ->
      exists lat lon,
        location mk = [Some lat; Some lon] /\ ~ (lon == 0 /\ lat == 0).
Proof.
  intros raw. unfold circle_markers. rewrite length_map.
  split; [apply firstn_le_length |].
  intros mk Hmk. apply in_map_iff in Hmk as (r & <- & Hr).
  destruct (clean_coords raw r (proj1 (severe_df_In _ r Hr)))
    as (lat & lon & Hlat & Hlon & H0).
  exists lat, lon. simpl. now rewrite Hlat, Hlon.
Qed.

Lemma markers_located_witness :
  exists lat lon,
    [seattle_lat; seattle_lon] = [Some lat; Some lon] /\
    ~ (lon == 0 /\ lat == 0).
Proof.
  apply (proj2 (markers_located survey_sample)
           {| location := [seattle_lat; seattle_lon];
              popup := "<b>CurbRamp</b><br>A" |}).
  left; reflexivity.
Defined.

(** ** Value counts *)

Lemma notnull_In {A} (col : list (option A)) (x : A) :
  In x (notnull col) <-> In (Some x) col.
Proof.
  induction col as [|[y|] col IH]; simpl; [tauto | |].
  - rewrite IH. split; intros [H|H]; auto; left; congruence.
  - rewrite IH. split; [auto | intros [H|H]; [discriminate | exact H]].
Qed.

Section ValueCountsFacts.
Context {A : Type} (eqb : A -> A -> bool).
Hypothesis eqb_spec : forall x y, eqb x y = true <-> x = y.

Lemma eqb_refl' (x : A) : eqb x x = true.
Proof. now apply eqb_spec. Qed.

Lemma unique_In (v : list A) (x : A) : In x (unique eqb v) <-> In x v.
Proof.
  induction v as [|a v IH]; simpl; [tauto |].
  rewrite filter_In, IH. destruct (eqb a x) eqn:E.
  - apply eqb_spec in E. subst. simpl. intuition discriminate.
  - simpl. split; [intros [H | [H _]]; auto | intros [H | H]; auto].
Qed.

Lemma unique_NoDup (v : list A) : NoDup (unique eqb v).
Proof.
  induction v as [|a v IH]; simpl; constructor.
  - rewrite filter_In, eqb_refl'. intros [_ H]. discriminate.
  - now apply NoDup_filter.
Qed.

Lemma occurrences_pos (x : A) (v : list A) :
  In x v <-> (1 <= occurrences eqb x v)%nat.
Proof.
  unfold occurrences. induction v as [|a v IH]; simpl; [lia |].
  destruct (eqb x a) eqn:E; simpl.
  - apply eqb_spec in E. subst. split; [lia | now left].
  - rewrite <- IH. split; [intros [-> | H]; auto | now right].
    now rewrite eqb_refl' in E.
Qed.

Lemma value_counts_perm (col : list (option A)) :
  Permutation (value_counts eqb col)
    (map (fun k => (k, occurrences eqb k (notnull col)))
         (unique eqb (notnull col))).
Proof. apply insertion_sort_perm. Qed.

Lemma value_counts_In (col : list (option A)) (k : A) (c : nat) :
  In (k, c) (value_counts eqb col) <->
  In (Some k) col /\ c = occurrences eqb k (notnull col).
Proof.
  rewrite <- notnull_In, <- (unique_In (notnull col)). split.
  - intros H. apply (Permutation_in _ (value_counts_perm col)) in H.
    apply in_map_iff in H as (k' & [= -> <-] & Hk). auto.
  - intros [Hk ->].
    apply (Permutation_in _ (Permutation_sym (value_counts_perm col))).
    apply in_map_iff. eauto.
Qed.

Lemma value_counts_keys (col : list (option A)) :
  Permutation (map fst (value_counts eqb col)) (unique eqb (notnull col)).
Proof.
  eapply perm_trans; [apply Permutation_map, value_counts_perm |].
  rewrite map_map. simpl. rewrite map_id. apply Permutation_refl.
Qed.

Lemma value_counts_NoDup (col : list (option A)) :
  NoDup (map fst (value_counts eqb col)).
Proof.
  eapply Permutation_NoDup;
    [apply Permutation_sym, value_counts_keys | apply unique_NoDup].
Qed.

Lemma one_key (ks : list A) (y : A) :
  NoDup ks ->
  list_sum (map (fun k => if eqb k y then 1 else 0)%nat ks) =
  (if existsb (fun k => eqb k y) ks then 1 else 0)%nat.
Proof.
  induction 1 as [|k ks Hk Hnd IH]; simpl; [reflexivity |].
  rewrite IH. destruct (eqb k y) eqn:E; simpl; [| reflexivity].
  destruct (existsb (fun k0 => eqb k0 y) ks) eqn:Ex; [| reflexivity].
  exfalso. apply existsb_exists in Ex as (k' & Hin & Hk').
  apply eqb_spec in E. apply eqb_spec in Hk'. subst. now apply Hk.
Qed.

Lemma occurrences_sum (ks v : list A) :
  NoDup ks ->
  list_sum (map (fun k => occurrences eqb k v) ks) =
  List.length (filter (fun y => existsb (fun k => eqb k y) ks) v).
Proof.
  intros Hnd. unfold occurrences. induction v as [|y v IH]; simpl.
  - clear Hnd. induction ks; simpl; auto.
  - rewrite (map_ext _ (fun k => (if eqb k y then 1 else 0) +
        List.length (filter (eqb k) v))%nat).
    + rewrite list_sum_map_add, IH, (one_key ks y Hnd).
      destruct (existsb _ ks); reflexivity.
    + intros k. destruct (eqb k y); reflexivity.
Qed.

(** The counts add up to the number of non-missing cells. *)
Lemma value_counts_sum (col : list (option A)) :
  list_sum (map snd (value_counts eqb col)) = List.length (notnull col).
Proof.
  rewrite (list_sum_perm _ _ (Permutation_map snd (value_counts_perm col))).
  rewrite map_map. simpl.
  rewrite occurrences_sum by apply unique_NoDup.
  f_equal. apply filter_all, Forall_forall. intros y Hy.
  apply existsb_exists. exists y. split; [now apply unique_In |].
  apply eqb_refl'.
Qed.

Lemma count_geb_total (a b : A * nat) :
  count_geb a b = false -> count_geb b a = true.
Proof. unfold count_geb. rewrite Nat.leb_gt, Nat.leb_le. lia. Qed.

Lemma count_geb_trans (a b c : A * nat) :
  count_geb a b = true -> count_geb b c = true -> count_geb a c = true.
Proof. unfold count_geb. rewrite !Nat.leb_le. lia. Qed.

Lemma value_counts_sorted (col : list (option A)) :
  StronglySorted (fun a b => count_geb a b = true) (value_counts eqb col).
Proof.
  apply insertion_sort_strongly_sorted;
    [apply count_geb_total | apply count_geb_trans].
Qed.

End ValueCountsFacts.

(** ** The pie chart *)

Lemma occurrences_label (d : frame) (k : string) :
  occurrences String.eqb k (notnull (map Row.label_type d)) =
  List.length (filter (has_label k) d).
Proof.
  unfold occurrences, has_label.
  induction d as [|r d IH]; simpl; [reflexivity |].
  destruct (Row.label_type r) as [k'|]; simpl; [| exact IH].
  destruct (String.eqb k k'); simpl; now rewrite IH.
Qed.

Lemma NoDup_firstn {A} (n : nat) (l : list A) : NoDup l -> NoDup (firstn n l).
Proof.
  intros H. rewrite <- (firstn_skipn n l) in H.
  now apply NoDup_app_remove_r in H.
Qed.

Lemma list_sum_firstn (n : nat) (l : list nat) :
  (list_sum (firstn n l) <= list_sum l)%nat.
Proof.
  rewrite <- (firstn_skipn n l) at 2. rewrite list_sum_app. lia.
Qed.

(** X17.  The pie chart shows at most five barrier types, no type twice, each
    with the number of rows of that type, which is never zero; a type that
    is left out has no more rows than any type shown. *)
Theorem type_counts_top5 :
  forall d : frame,
    (List.length (type_counts d) <= 5)%nat /\
    NoDup (map fst (type_counts d)) /\
    (forall k c, In (k, c) (type_counts d) ->
                 c = List.length (filter (has_label k) d) /\ (1 <= c)%nat) /\
    (forall k c k' c',
       In (k, c) (type_counts d) ->
       In (k', c') (skipn 5 (value_counts String.eqb (map Row.label_type d))) ->
       (c' <= c)%nat).
Proof.
  intros d. unfold type_counts.
  set (vc := value_counts String.eqb (map Row.label_type d)).
  split; [apply firstn_le_length |].
  split; [rewrite <- firstn_map;
          apply NoDup_firstn, (value_counts_NoDup _ String.eqb_eq) |].
  split.
  - intros k c Hkc.
    assert (Hin : In (k, c) vc).
    { rewrite <- (firstn_skipn 5 vc). apply in_or_app. now left. }
    apply (value_counts_In _ String.eqb_eq) in Hin as [Hk ->].
    split; [apply occurrences_label |].
    apply (occurrences_pos _ String.eqb_eq). now apply notnull_In.
  - intros k c k' c' H1 H2.
    pose proof (value_counts_sorted String.eqb (map Row.label_type d)) as Hs.
    fold vc in Hs. rewrite <- (firstn_skipn 5 vc) in Hs.
    pose proof (StronglySorted_app_cross _ _ _ Hs _ _ H1 H2) as H.
    unfold count_geb in H. simpl in H. now apply Nat.leb_le in H.
Qed.

Lemma type_counts_top5_witness :
  3%nat = List.length (filter (has_label "CurbRamp") survey_sample) /\
  (1 <= 3)%nat.
Proof.
  destruct (type_counts_top5 survey_sample) as (_ & _ & H & _).
  apply (H "CurbRamp"%string 3%nat). left; reflexivity.
Defined.

(** X18.  The counts of all barrier types add up to the number of rows that
    carry a type; the slices of the pie chart add up to at most that, and
    to exactly that when there are at most five types. *)
Theorem type_counts_total :
  forall d : frame,
    let vc := value_counts String.eqb (map Row.label_type d) in
    list_sum (map snd vc) = labelled_rows d /\
    (list_sum (map snd (type_counts d)) <= labelled_rows d)%nat /\
    ((List.length vc <= 5)%nat ->
     list_sum (map snd (type_counts d)) = labelled_rows d).
Proof.
  intros d vc. unfold labelled_rows, type_counts. fold vc.
  pose proof (value_counts_sum _ String.eqb_eq (map Row.label_type d)) as H.
  fold vc in H. rewrite <- H.
  split; [reflexivity |]. split.
  - rewrite <- firstn_map. apply list_sum_firstn.
  - intros Hlen. now rewrite firstn_all2.
Qed.

Lemma type_counts_total_witness :
  list_sum (map snd (type_counts survey_sample)) = labelled_rows survey_sample.
Proof.
  apply (proj2 (proj2 (type_counts_total survey_sample))).
  vm_compute. lia.
Defined.

(** ** Permanent and temporary barriers *)






(** ** What the report does not look at *)

Lemma severity_erase (d : frame) :
  map Row.severity (map erase_labels d) = map Row.severity d.
Proof. rewrite map_map. reflexivity. Qed.

Lemma clean_erase (raw : frame) :
  clean (map erase_labels raw) = map erase_labels (clean raw).
Proof.
  unfold clean, drop_bad_coords, impute.
  rewrite severity_erase, !map_map, !filter_map_comm, map_map.
  reflexivity.
Qed.

Lemma group_keys_erase (d : frame) :
  group_keys (map erase_labels d) = group_keys d.
Proof.
  unfold group_keys. do 2 f_equal.
  induction d as [|r d IH]; simpl; [reflexivity |]. now rewrite IH.
Qed.

Lemma groupby_agg_erase (d : frame) :
  groupby_agg (map erase_labels d) = groupby_agg d.
Proof.
  unfold groupby_agg. rewrite group_keys_erase. apply map_ext.
  intros k. unfold get_group. rewrite filter_map_comm, severity_erase.
  reflexivity.
Qed.

Lemma analyse_erase (raw : frame) :
  stats (analyse (map erase_labels raw)) = stats (analyse raw).
Proof. simpl. now rewrite clean_erase, groupby_agg_erase. Qed.

(** X20.  Two inputs that differ only in barrier types and temporary flags get
    the same report, the same top 10 and the same number of clean rows:
    the ranking looks at coordinates, neighborhood and severity only. *)
Theorem report_ignores_labels :
  forall raw1 raw2 : frame,
    map erase_labels raw1 = map erase_labels raw2 ->
    stats (analyse raw1) = stats (analyse raw2) /\
    top10 (analyse raw1) = top10 (analyse raw2) /\
    clean_rows (analyse raw1) = clean_rows (analyse raw2).
Proof.
  intros raw1 raw2 H.
  assert (Hs : stats (analyse raw1) = stats (analyse raw2))
    by (rewrite <- (analyse_erase raw1), <- (analyse_erase raw2); now rewrite H).
  split; [exact Hs |]. split.
  - change (head 10 (stats (analyse raw1)) = head 10 (stats (analyse raw2))).
    now rewrite Hs.
  - simpl.
    rewrite <- (length_map erase_labels (clean raw1)).
    rewrite <- (length_map erase_labels (clean raw2)).
    now rewrite <- !clean_erase, H.
Qed.

Lemma report_ignores_labels_witness :
  stats (analyse survey_sample) =
  stats (analyse (map erase_labels survey_sample)).
Proof.
  apply (report_ignores_labels survey_sample
           (map erase_labels survey_sample) eq_refl).
Defined.
